(** * Bootstrap and lifecycle of the API service ([src/start.js])

    A shallow embedding of [start.js]: the module-level state it creates when
    it is loaded, the function [startServer], the callbacks it registers, and
    the part of the Node/Express run time those callbacks are driven by.

    The state the JavaScript code mutates ([app], the mongoose connection,
    the listening socket, [process] listeners, the log) is one record,
    [World], threaded through every operation.  The run time is a total step
    function over the events it can deliver. *)

From Stdlib Require Import ZArith Ascii String.
From stdpp Require Import gmap strings list pretty.

Local Open Scope string_scope.

(** ** JavaScript values the file relies on *)

Module JS.

(** [process.env.X]: a string when set, [undefined] ([None]) otherwise. *)

(** Truthiness of such a value: [undefined] and the empty string are
    falsy, every other string is truthy. *)
Definition truthy (v : option string) : bool :=
  match v with
  | Some s => negb (String.eqb s "")
  | None => false
  end.

(** [v || d] on strings. *)
Definition or_else (v : option string) (d : string) : string :=
  match v with
  | Some s => if String.eqb s "" then d else s
  | None => d
  end.

(** [`${v}`] inside a template literal: [undefined] prints as the word. *)
Definition interpolate (v : option string) : string :=
  match v with
  | Some s => s
  | None => "undefined"
  end.

(** [v === s]. *)
Definition strict_eq (v : option string) (s : string) : bool :=
  match v with
  | Some t => String.eqb t s
  | None => false
  end.

(** An [Error] object: what [`${err}`] prints, [err.stack], and what
    [console.log(err)] prints, which is [util.inspect(err)]: the stack
    followed by the error's own properties. *)
Record Error := {
  err_text : string;
  err_stack : string;
  err_inspect : string
}.

(** A value that was thrown.  [throw] takes any value: [null] and
    [undefined] have no properties, so reading [.stack] off them throws; a
    symbol, or an object without [toString], cannot be put in a template
    literal; every other value prints, and its [stack] is a string or
    [undefined]. *)
Inductive Thrown :=
| Nullish
| Unprintable
| Value (text : string) (stack : option string).

Definition thrown_of_error (e : Error) : Thrown :=
  Value (err_text e) (Some (err_stack e)).

(** The state of a promise. *)
Inductive Promise (A : Type) :=
| Pending
| Resolved (v : A)
| Rejected (e : Error).
Arguments Pending {A}.
Arguments Resolved {A} v.
Arguments Rejected {A} e.

Definition lower_ascii (c : ascii) : ascii :=
  let n := nat_of_ascii c in
  if (65 <=? n)%nat && (n <=? 90)%nat then ascii_of_nat (n + 32) else c.

Fixpoint toLowerCase (s : string) : string :=
  match s with
  | EmptyString => EmptyString
  | String c r => String (lower_ascii c) (toLowerCase r)
  end.

End JS.

Definition Env := gmap string string.

(** The port handed to [app.listen]: a number, or a string taken from the
    environment or from the caller. *)
Inductive PortVal :=
| PortNum (n : Z)
| PortStr (s : string).

Definition port_text (p : PortVal) : string :=
  match p with
  | PortNum n => pretty n
  | PortStr s => s
  end.

(** ** Requests, responses and pipeline stages *)

Inductive Method := GET | HEAD | POST | PUT | PATCH | DELETE | OPTIONS.

#[global] Instance Method_eq_dec : EqDecision Method.
Proof. solve_decision. Defined.

Inductive BodyKind := NoBody | JsonBody | UrlencodedBody | OtherBody.

#[global] Instance BodyKind_eq_dec : EqDecision BodyKind.
Proof. solve_decision. Defined.

Record Request := {
  req_method : Method;
  req_path : string;                  (* path name, without the query *)
  req_ip : string;                    (* the rate limiter's key *)
  req_headers : gmap string string;   (* names in lower case, as Node stores them *)
  req_body_kind : BodyKind;           (* what Content-Type announces *)
  req_body_len : N;                   (* bytes *)
  req_body_ok : bool                  (* the body parses *)
}.

Record Response := {
  res_status : nat;
  res_body : string;
  res_compressed : bool
}.

Definition send (status : nat) (body : string) : Response :=
  {| res_status := status; res_body := body; res_compressed := false |}.

(** What a stage does with a request: call [next()], answer, or pass an
    error on ([next(err)] or a throw, which express-async-errors forwards). *)
Inductive Outcome :=
| Next
| Respond (r : Response)
| Fail (e : JS.Error).

(** The stages [startServer] registers, named as in the source. *)
Inductive Stage :=
| SwaggerDocs                          (* expressSwagger(options) *)
| RateLimiter (windowMs max : nat)     (* rateLimiter *)
| Helmet                               (* helmet() *)
| Cors                                 (* cors() *)
| AliveRoute                           (* app.get("/alive", ...) *)
| ExpressLogger                        (* expressLogger *)
| Compression                          (* compression({ filter }) *)
| JsonParser (limit : N)               (* express.json({ limit }) *)
| UrlencodedParser (limit : N)         (* express.urlencoded({ extended, limit }) *)
| Routes (prefix : string)             (* app.use(prefix, getRoutes()) *)
| CatchAll                             (* app.use("*", ...) *)
| GenericErrorMiddleware.              (* genericErrorMiddleware *)

#[global] Instance Stage_eq_dec : EqDecision Stage.
Proof. solve_decision. Defined.

(** Express tells error handlers (four parameters) from the others. *)
Definition is_error_handler (s : Stage) : bool :=
  match s with
  | GenericErrorMiddleware => true
  | _ => false
  end.

Inductive LogEntry :=
| LogInfo (s : string)
| LogWarn (s : string)
| LogError (s : string)
| ConsoleLog (s : string).

(** mongoose.connection, as the route handlers find it. *)
Inductive DbState := DbIdle | DbConnecting | DbOpen | DbFailed.

(** What [server.listen] makes of its first argument: a TCP port, the path
    of a pipe, or a port it refuses by throwing [ERR_SOCKET_BAD_PORT]. *)
Inductive ListenTarget :=
| TcpPort (n : Z)
| PipePath (s : string)
| BadPort.

(** The code outside [start.js] that it calls or is run by. *)
Record Collaborators := {
  (** Node's reading of a port given as a string that is not a decimal
      numeral (blanks, signs, hexadecimal, exponents): [Number(s)] decides
      between a port, a pipe and a refusal *)
  string_target : string -> ListenTarget;
  (** the [RangeError] ([ERR_SOCKET_BAD_PORT]) that [listen] throws on a
      port it refuses; its wording depends on the version of Node *)
  listen_error : PortVal -> JS.Error;
  (** Express's matching of a request path against a mount path that holds
      pattern characters ([*], [:name], [+], [?], parentheses), as
      path-to-regexp compiles it *)
  mount_pattern : string -> string -> bool;
  (** the documentation stages [expressSwagger(options)] puts on [app];
      their mount paths come from [./swagger] *)
  swagger_docs : Request -> Outcome;
  (** the line [expressLogger] (from [./logger]) writes for a request *)
  access_line : Request -> string;
  (** [compression.filter], the library's own predicate *)
  compression_filter : Request -> Response -> bool;
  (** the library's remaining conditions (threshold, Accept-Encoding) *)
  compression_applies : Request -> Response -> bool;
  (** the router returned by [getRoutes()] (from [./routes]); its handlers
      work on the storage connection, in whatever state it is *)
  getRoutes : DbState -> Request -> Outcome;
  (** the response [genericErrorMiddleware] (from [./errorMiddlewares])
      sends for an error *)
  error_response : JS.Error -> Response
}.

(** ** The request pipeline

    Express keeps the stages in registration order and offers a request to
    each in turn.  The behaviour of the third-party stages is the documented
    default of express-rate-limit, helmet, cors, compression and body-parser
    for the options [start.js] passes. *)

Module Pipeline.

(** Drop one trailing slash, as Express does with a mount path. *)
Fixpoint strip_slash (s : string) : string :=
  match s with
  | EmptyString => EmptyString
  | String c r =>
      match r with
      | EmptyString => if Ascii.eqb c "/" then EmptyString else s
      | _ => String c (strip_slash r)
      end
  end.

(** [app.get("/alive", ...)]: routing is case-insensitive and not strict
    about one trailing slash. *)
Definition alive_path (p : string) : bool :=
  let q := JS.toLowerCase p in
  String.eqb q "/alive" || String.eqb q "/alive/".

(** The characters Express's path compiler takes as they are: letters,
    digits and [/ . _ - ~]. *)
Definition plain_char (c : ascii) : bool :=
  let n := nat_of_ascii c in
  ((48 <=? n)%nat && (n <=? 57)%nat)
  || ((65 <=? n)%nat && (n <=? 90)%nat)
  || ((97 <=? n)%nat && (n <=? 122)%nat)
  || Ascii.eqb c "/" || Ascii.eqb c "." || Ascii.eqb c "_"
  || Ascii.eqb c "-" || Ascii.eqb c "~".

Fixpoint plain (s : string) : bool :=
  match s with
  | EmptyString => true
  | String c r => plain_char c && plain r
  end.

(** What a request carries through the stages: the limiter's counters, the
    storage connection the handlers find, the log, whether the compression
    stage has wrapped the response, and the stages that ran, in order. *)
Record Ctx := {
  cx_hits : gmap string nat;
  cx_db : DbState;
  cx_log : list LogEntry;
  cx_compress : bool;
  cx_trace : list Stage
}.

Definition visit (s : Stage) (cx : Ctx) : Ctx :=
  {| cx_hits := cx_hits cx; cx_db := cx_db cx; cx_log := cx_log cx;
     cx_compress := cx_compress cx; cx_trace := cx_trace cx ++ [s] |}.

Definition hits_of (h : gmap string nat) (key : string) : nat :=
  default 0 (h !! key).

(** [rateLimiter]: count the request under its key, reject above [max]. *)
Definition rate_limit (max : nat) (req : Request) (cx : Ctx) : Outcome * Ctx :=
  let current := S (hits_of (cx_hits cx) (req_ip req)) in
  let cx' := {| cx_hits := <[req_ip req := current]> (cx_hits cx);
                cx_db := cx_db cx;
                cx_log := cx_log cx; cx_compress := cx_compress cx;
                cx_trace := cx_trace cx |} in
  if (max <? current)%nat
  then (Respond (send 429 "Too many requests, please try again later."), cx')
  else (Next, cx').

Definition payload_too_large : JS.Error :=
  {| JS.err_text := "PayloadTooLargeError: request entity too large";
     JS.err_stack := "PayloadTooLargeError: request entity too large";
     JS.err_inspect := "PayloadTooLargeError: request entity too large" |}.

Definition bad_body : JS.Error :=
  {| JS.err_text := "SyntaxError: malformed request body";
     JS.err_stack := "SyntaxError: malformed request body";
     JS.err_inspect := "SyntaxError: malformed request body" |}.

(** [express.json] and [express.urlencoded]: only bodies of their own kind
    are read; the size limit is checked while reading, before parsing. *)
Definition body_parser (kind : BodyKind) (limit : N) (req : Request) : Outcome :=
  if decide (req_body_kind req = kind) then
    if (limit <? req_body_len req)%N then Fail payload_too_large
    else if req_body_ok req then Next else Fail bad_body
  else Next.

Section WithCollaborators.

Variable lib : Collaborators.

(** Modelled from the spec: [genericErrorMiddleware] is defined in
    [./errorMiddlewares], which is not part of the sources at hand.  The
    specification says it converts any error into a uniform error response
    and never forwards further. *)
Definition genericErrorMiddleware (e : JS.Error) : Outcome :=
  Respond (error_response lib e).

(** [app.use(prefix, ...)].  The mount path ["/"] matches every request.
    A mount path of plain characters matches whole path segments, letter
    case and one trailing slash aside; any other is a pattern. *)
Definition under_prefix (prefix p : string) : bool :=
  if String.eqb prefix "/" then true
  else if plain prefix then
    let pre := JS.toLowerCase (strip_slash prefix) in
    let q := JS.toLowerCase p in
    String.eqb q pre || String.prefix (pre ++ "/") q
  else mount_pattern lib prefix p.

(** The [filter] option handed to [compression]. *)
Definition filter (req : Request) (res : Response) : bool :=
  if JS.truthy (req_headers req !! "x-no-compression") then false
  else compression_filter lib req res.

(** Is stage [s] offered request [req] on the normal (non-error) path? *)
Definition applies (s : Stage) (req : Request) : bool :=
  match s with
  | AliveRoute =>
      (bool_decide (req_method req = GET) || bool_decide (req_method req = HEAD))
      && alive_path (req_path req)
  | Routes prefix => under_prefix prefix (req_path req)
  | GenericErrorMiddleware => false
  | _ => true
  end.

Definition run_stage (s : Stage) (req : Request) (cx : Ctx) : Outcome * Ctx :=
  match s with
  | SwaggerDocs => (swagger_docs lib req, cx)
  | RateLimiter _ max => rate_limit max req cx
  | Helmet => (Next, cx)
  | Cors =>
      if decide (req_method req = OPTIONS) then (Respond (send 204 ""), cx)
      else (Next, cx)
  | AliveRoute => (Respond (send 200 "OK"), cx)
  | ExpressLogger =>
      (Next, {| cx_hits := cx_hits cx; cx_db := cx_db cx;
                cx_log := cx_log cx ++ [LogInfo (access_line lib req)];
                cx_compress := cx_compress cx; cx_trace := cx_trace cx |})
  | Compression =>
      (Next, {| cx_hits := cx_hits cx; cx_db := cx_db cx; cx_log := cx_log cx;
                cx_compress := true; cx_trace := cx_trace cx |})
  | JsonParser limit => (body_parser JsonBody limit req, cx)
  | UrlencodedParser limit => (body_parser UrlencodedBody limit req, cx)
  | Routes _ => (getRoutes lib (cx_db cx) req, cx)
  | CatchAll => (Respond (send 404 "404 - Not Found"), cx)
  | GenericErrorMiddleware => (Next, cx)
  end.

(** An error skips every stage that is not an error handler. *)
Fixpoint handle_error (stack : list Stage) (e : JS.Error) (cx : Ctx)
  : Response * Ctx :=
  match stack with
  | [] => (send 500 "Internal Server Error", cx)
  | s :: rest =>
      if is_error_handler s then
        match genericErrorMiddleware e with
        | Respond r => (r, visit s cx)
        | Next => handle_error rest e (visit s cx)
        | Fail e' => handle_error rest e' (visit s cx)
        end
      else handle_error rest e cx
  end.

Fixpoint handle (stack : list Stage) (req : Request) (cx : Ctx)
  : Response * Ctx :=
  match stack with
  | [] => (send 404 "Cannot find the requested resource", cx)
  | s :: rest =>
      if applies s req then
        match run_stage s req (visit s cx) with
        | (Next, cx') => handle rest req cx'
        | (Respond r, cx') => (r, cx')
        | (Fail e, cx') => handle_error rest e cx'
        end
      else handle rest req cx
  end.

(** The response leaves compressed only when the compression stage wrapped
    it and [filter], consulted first, and the library's other conditions
    all agree. *)
Definition finish (req : Request) (out : Response * Ctx) : Response * Ctx :=
  let '(r, cx) := out in
  ({| res_status := res_status r; res_body := res_body r;
      res_compressed :=
        cx_compress cx && (filter req r && compression_applies lib req r) |},
   cx).

Definition serve (stack : list Stage) (req : Request) (cx : Ctx)
  : Response * Ctx :=
  finish req (handle stack req cx).

End WithCollaborators.

End Pipeline.

(** ** The state of the process *)

(** The socket [app.listen] creates, from its call of [listen] on;
    [Refused] when [listen] threw, with what it threw, on the port it was
    given. *)
Inductive SrvState :=
| Starting
| Listening
| Closing
| Closed
| BindFailed
| Refused (err : JS.Error).

(** What the callback handed to the socket's own [close] is called with. *)
Inductive CloseValue :=
| CloseNoArgs
| CloseError (e : JS.Error).

(** A [once("close", ...)] listener left by a call of the socket's own
    [close]: the close-promise it resolves, and whether the socket was
    already not running when the call was made. *)
Record CloseListener := { cl_promise : nat; cl_not_running : bool }.

Record Server := {
  srv_state : SrvState;
  srv_port : PortVal;                          (* the port given to [listen] *)
  srv_bound : option Z;                        (* [server.address().port] *)
  srv_conns : nat;                             (* connections in flight *)
  srv_close_wrapped : bool;                    (* [server.close] was replaced *)
  srv_close_listeners : list CloseListener;
  srv_native_closes : nat                      (* calls of [originalClose] *)
}.

(** The value the start promise resolves with: the one server object. *)
Inductive Handle := TheServer.

(** The callbacks [start.js] registers, by the place they are written. *)
Inductive DbListener := OnDbOpen.
Inductive ProcListener := OnUncaughtException | OnExit.

(** A call of [fetch(url, { method }, callback)]; both calls in the file
    pass the same callback, which writes the error to the console. *)
Record Fetch := { f_url : string; f_method : Method }.

(** A request that was answered: the response and the stages that ran. *)
Record Exchange := {
  ex_req : Request;
  ex_res : Response;
  ex_trace : list Stage
}.

Record World := {
  (* process.env *)
  env : Env;
  (* [expressSwagger] is defined *)
  expressSwagger : bool;
  (* the stages on [app], in registration order *)
  app_stack : list Stage;
  (* the [etag] setting of [app] *)
  app_etag : bool;
  (* the store of [rateLimiter] *)
  limiter_hits : gmap string nat;
  (* what [mongoose.connect] was given *)
  db_url : option string;
  (* mongoose.connection *)
  db_state : DbState;
  (* [db.on] listeners *)
  db_on : list (string * DbListener);
  (* [process.on] listeners *)
  process_on : list (string * ProcListener);
  (* the socket [app.listen] created *)
  server : option Server;
  (* the promise [startServer] returned *)
  start_promise : option (JS.Promise Handle);
  (* the promises [server.close()] returned, by call *)
  close_promises : list (JS.Promise CloseValue);
  (* outbound requests issued, in order *)
  fetches : list Fetch;
  (* requests answered, in order *)
  served : list Exchange;
  (* everything logged, in order *)
  log : list LogEntry;
  (* set once the process has ended *)
  exit_code : option Z
}.

Definition set_app_stack (v : list Stage) (w : World) : World :=
  {| env := env w; expressSwagger := expressSwagger w; app_stack := v;
     app_etag := app_etag w; limiter_hits := limiter_hits w; db_url :=
     db_url w; db_state := db_state w; db_on := db_on w; process_on :=
     process_on w; server := server w; start_promise := start_promise w;
     close_promises := close_promises w; fetches := fetches w; served :=
     served w; log := log w; exit_code := exit_code w |}.

Definition set_app_etag (v : bool) (w : World) : World :=
  {| env := env w; expressSwagger := expressSwagger w; app_stack :=
     app_stack w; app_etag := v; limiter_hits := limiter_hits w; db_url :=
     db_url w; db_state := db_state w; db_on := db_on w; process_on :=
     process_on w; server := server w; start_promise := start_promise w;
     close_promises := close_promises w; fetches := fetches w; served :=
     served w; log := log w; exit_code := exit_code w |}.

Definition set_limiter_hits (v : gmap string nat) (w : World) : World :=
  {| env := env w; expressSwagger := expressSwagger w; app_stack :=
     app_stack w; app_etag := app_etag w; limiter_hits := v; db_url :=
     db_url w; db_state := db_state w; db_on := db_on w; process_on :=
     process_on w; server := server w; start_promise := start_promise w;
     close_promises := close_promises w; fetches := fetches w; served :=
     served w; log := log w; exit_code := exit_code w |}.

Definition set_db_url (v : option string) (w : World) : World :=
  {| env := env w; expressSwagger := expressSwagger w; app_stack :=
     app_stack w; app_etag := app_etag w; limiter_hits := limiter_hits w;
     db_url := v; db_state := db_state w; db_on := db_on w; process_on :=
     process_on w; server := server w; start_promise := start_promise w;
     close_promises := close_promises w; fetches := fetches w; served :=
     served w; log := log w; exit_code := exit_code w |}.

Definition set_db_state (v : DbState) (w : World) : World :=
  {| env := env w; expressSwagger := expressSwagger w; app_stack :=
     app_stack w; app_etag := app_etag w; limiter_hits := limiter_hits w;
     db_url := db_url w; db_state := v; db_on := db_on w; process_on :=
     process_on w; server := server w; start_promise := start_promise w;
     close_promises := close_promises w; fetches := fetches w; served :=
     served w; log := log w; exit_code := exit_code w |}.

Definition set_db_on (v : list (string * DbListener)) (w : World) : World :=
  {| env := env w; expressSwagger := expressSwagger w; app_stack :=
     app_stack w; app_etag := app_etag w; limiter_hits := limiter_hits w;
     db_url := db_url w; db_state := db_state w; db_on := v; process_on :=
     process_on w; server := server w; start_promise := start_promise w;
     close_promises := close_promises w; fetches := fetches w; served :=
     served w; log := log w; exit_code := exit_code w |}.

Definition set_server (v : option Server) (w : World) : World :=
  {| env := env w; expressSwagger := expressSwagger w; app_stack :=
     app_stack w; app_etag := app_etag w; limiter_hits := limiter_hits w;
     db_url := db_url w; db_state := db_state w; db_on := db_on w;
     process_on := process_on w; server := v; start_promise :=
     start_promise w; close_promises := close_promises w; fetches :=
     fetches w; served := served w; log := log w; exit_code := exit_code w |}.

Definition set_start_promise (v : option (JS.Promise Handle)) (w : World) : World :=
  {| env := env w; expressSwagger := expressSwagger w; app_stack :=
     app_stack w; app_etag := app_etag w; limiter_hits := limiter_hits w;
     db_url := db_url w; db_state := db_state w; db_on := db_on w;
     process_on := process_on w; server := server w; start_promise := v;
     close_promises := close_promises w; fetches := fetches w; served :=
     served w; log := log w; exit_code := exit_code w |}.

Definition set_close_promises (v : list (JS.Promise CloseValue)) (w : World) : World :=
  {| env := env w; expressSwagger := expressSwagger w; app_stack :=
     app_stack w; app_etag := app_etag w; limiter_hits := limiter_hits w;
     db_url := db_url w; db_state := db_state w; db_on := db_on w;
     process_on := process_on w; server := server w; start_promise :=
     start_promise w; close_promises := v; fetches := fetches w; served :=
     served w; log := log w; exit_code := exit_code w |}.

Definition set_fetches (v : list Fetch) (w : World) : World :=
  {| env := env w; expressSwagger := expressSwagger w; app_stack :=
     app_stack w; app_etag := app_etag w; limiter_hits := limiter_hits w;
     db_url := db_url w; db_state := db_state w; db_on := db_on w;
     process_on := process_on w; server := server w; start_promise :=
     start_promise w; close_promises := close_promises w; fetches := v;
     served := served w; log := log w; exit_code := exit_code w |}.

Definition set_served (v : list Exchange) (w : World) : World :=
  {| env := env w; expressSwagger := expressSwagger w; app_stack :=
     app_stack w; app_etag := app_etag w; limiter_hits := limiter_hits w;
     db_url := db_url w; db_state := db_state w; db_on := db_on w;
     process_on := process_on w; server := server w; start_promise :=
     start_promise w; close_promises := close_promises w; fetches :=
     fetches w; served := v; log := log w; exit_code := exit_code w |}.

Definition set_log (v : list LogEntry) (w : World) : World :=
  {| env := env w; expressSwagger := expressSwagger w; app_stack :=
     app_stack w; app_etag := app_etag w; limiter_hits := limiter_hits w;
     db_url := db_url w; db_state := db_state w; db_on := db_on w;
     process_on := process_on w; server := server w; start_promise :=
     start_promise w; close_promises := close_promises w; fetches :=
     fetches w; served := served w; log := v; exit_code := exit_code w |}.

Definition set_exit_code (v : option Z) (w : World) : World :=
  {| env := env w; expressSwagger := expressSwagger w; app_stack :=
     app_stack w; app_etag := app_etag w; limiter_hits := limiter_hits w;
     db_url := db_url w; db_state := db_state w; db_on := db_on w;
     process_on := process_on w; server := server w; start_promise :=
     start_promise w; close_promises := close_promises w; fetches :=
     fetches w; served := served w; log := log w; exit_code := v |}.

Definition add_log (es : list LogEntry) (w : World) : World :=
  set_log (log w ++ es) w.

(** [app.use(...)] and [app.get(...)]: put a stage at the end of the stack. *)
Definition app_use (s : Stage) (w : World) : World :=
  set_app_stack (app_stack w ++ [s]) w.

(** ** The callbacks of [start.js] *)

(** [process.on("uncaughtException", (err, origin) => ...)].  The message
    is built before anything is logged: where [`${err}`] or [err.stack]
    throws, the listener throws ([None]) and has written nothing. *)
Definition on_uncaughtException (err : JS.Thrown) (origin : string) (w : World)
  : option World :=
  match err with
  | JS.Value text stack =>
      Some
        (add_log
           [LogError ("Uncaught Exception: origin:" ++ origin ++ ", error: "
                      ++ text ++ ", trace: " ++ JS.interpolate stack);
            LogWarn "Server may be unstable after an uncaught exception. Please restart server"]
           w)
  | JS.Nullish | JS.Unprintable => None
  end.

(** [process.on("exit", (code) => ...)]. *)
Definition on_exit (code : Z) (w : World) : World :=
  add_log
    [LogInfo ("Exiting with code " ++ pretty code ++ "...");
     ConsoleLog (String "010" "Press Ctrl+C if using nodemon.")]
    w.

(** The address the two warm-up calls are sent to. *)
Definition warmup_url (e : Env) (endpoint : string) : string :=
  "http://localhost:" ++ JS.interpolate (e !! "PORT")
  ++ JS.interpolate (e !! "API_PREFIX") ++ "wifis/patch/" ++ endpoint.

Definition fetch (url : string) (m : Method) (w : World) : World :=
  set_fetches (fetches w ++ [{| f_url := url; f_method := m |}]) w.

(** [db.on("open", () => ...)]. *)
Definition on_db_open (w : World) : World :=
  let w := add_log [LogInfo "Connected database"] w in
  if JS.strict_eq (env w !! "CACHE_ON_STARTUP") "true" then
    let w := add_log [LogInfo "Loading feature and heat-map cache."] w in
    let w := fetch (warmup_url (env w) "reloadFeatureCache") PATCH w in
    fetch (warmup_url (env w) "reloadHeatmapData") PATCH w
  else w.

(** The callback both [fetch] calls pass: [(err) => { if (err) console.log(err) }]. *)
Definition on_fetch_done (err : option JS.Error) (w : World) : World :=
  match err with
  | Some e => add_log [ConsoleLog (JS.err_inspect e)] w
  | None => w
  end.

(** ** Loading the module and starting the server *)

(** The top-level statements of [start.js], run once when it is loaded. *)
Definition module_load (e : Env) : World :=
  {| env := e;
     expressSwagger := negb (JS.strict_eq (e !! "NODE_ENV") "production");
     app_stack := [];
     app_etag := true;
     limiter_hits := ∅;
     db_url := None;
     db_state := DbIdle;
     db_on := [];
     process_on := [("uncaughtException", OnUncaughtException); ("exit", OnExit)];
     server := None;
     start_promise := None;
     close_promises := [];
     fetches := [];
     served := [];
     log := [LogInfo "===== STARTING SERVER ====="];
     exit_code := None |}.

(** [rateLimiter = require("express-rate-limit")({ windowMs: 1000, max: 5 })]. *)
Definition rateLimiter : Stage := RateLimiter 1000 5.

(** ["100mb"], in bytes. *)
Definition limit_100mb : N := 100 * 1024 * 1024.

(** [initialiseSwagger()]: [expressSwagger(options)] registers the
    documentation stages on [app]. *)
Definition initialiseSwagger (w : World) : World :=
  app_use SwaggerDocs w.

(** The default of the [port] parameter: [process.env.PORT || 5000]. *)
Definition resolve_port (arg : option PortVal) (e : Env) : PortVal :=
  match arg with
  | Some p => p
  | None =>
      match e !! "PORT" with
      | Some s => if String.eqb s "" then PortNum 5000 else PortStr s
      | None => PortNum 5000
      end
  end.

(** [databaseURL]. *)
Definition databaseURL (e : Env) : string :=
  if JS.strict_eq (e !! "DOCKER_ENV") "true"
     && JS.truthy (e !! "DOCKER_DATABASE_URL")
  then JS.interpolate (e !! "DOCKER_DATABASE_URL")
  else JS.or_else (e !! "DATABASE_URL") "mongodb://mongo:27017/prj".

Definition mongoose_connect (url : string) (w : World) : World :=
  set_db_state DbConnecting (set_db_url (Some url) w).

(** The value of a string of decimal digits. *)
Fixpoint digits_value (acc : Z) (s : string) : option Z :=
  match s with
  | EmptyString => Some acc
  | String c r =>
      let n := nat_of_ascii c in
      if (48 <=? n)%nat && (n <=? 57)%nat
      then digits_value (10 * acc + Z.of_nat (n - 48)) r
      else None
  end.

Definition port_in_range (n : Z) : ListenTarget :=
  if (0 <=? n)%Z && (n <=? 65535)%Z then TcpPort n else BadPort.

(** [server.listen(port, ...)] reading its first argument: a number, or a
    string of digits, is a port when it is within 0..65535 and is refused
    otherwise. *)
Definition listen_target (lib : Collaborators) (p : PortVal) : ListenTarget :=
  match p with
  | PortNum n => port_in_range n
  | PortStr s =>
      match s, digits_value 0 s with
      | String _ _, Some n => port_in_range n
      | _, _ => string_target lib s
      end
  end.

(** [app.listen(port, callback)]: Express creates the socket and calls its
    [listen], which either throws on the port, or returns with the socket
    not yet bound. *)
Definition app_listen (lib : Collaborators) (p : PortVal) (w : World)
  : World * option JS.Error :=
  let refused := match listen_target lib p with
                 | BadPort => true
                 | _ => false
                 end in
  (set_server
     (Some {| srv_state := if refused then Refused (listen_error lib p)
                           else Starting;
              srv_port := p; srv_bound := None;
              srv_conns := 0; srv_close_wrapped := false;
              srv_close_listeners := []; srv_native_closes := 0 |})
     w,
   if refused then Some (listen_error lib p) else None).

(** [startServer({ port })], statement by statement; the promise it returns
    is the world's [start_promise].  The call of [app.listen] is inside the
    promise's executor, so what it throws rejects the promise. *)
Definition startServer (lib : Collaborators) (port : option PortVal) (w : World)
  : World :=
  let port := resolve_port port (env w) in
  let w := if negb (JS.strict_eq (env w !! "NODE_ENV") "production")
           then initialiseSwagger w else w in
  let w := app_use rateLimiter w in
  let w := app_use Helmet w in
  let w := app_use Cors w in
  let w := app_use AliveRoute w in
  let w := app_use ExpressLogger w in
  let w := app_use Compression w in
  let w := app_use (JsonParser limit_100mb) w in
  let w := app_use (UrlencodedParser limit_100mb) w in
  let w := set_app_etag false w in
  let w := app_use (Routes (JS.or_else (env w !! "API_PREFIX") "/api/v1/")) w in
  let w := app_use CatchAll w in
  let w := mongoose_connect (databaseURL (env w)) w in
  let w := set_db_on (db_on w ++ [("open", OnDbOpen)]) w in
  let w := app_use GenericErrorMiddleware w in
  let w := set_start_promise (Some JS.Pending) w in
  match app_listen lib port w with
  | (w, Some err) => set_start_promise (Some (JS.Rejected err)) w
  | (w, None) => w
  end.

(** ** The run time

    What Node, Express and mongoose do with the callbacks above.  Each event
    is handled to completion before the next, as on Node's single thread. *)

Definition run_process_listener (l : ProcListener) (err : JS.Thrown)
    (origin : string) (code : Z) (w : World) : option World :=
  match l with
  | OnUncaughtException => on_uncaughtException err origin w
  | OnExit => Some (on_exit code w)
  end.

(** The listeners of an event run in turn, until one throws: the world it
    was called in, and whether one threw. *)
Fixpoint run_process_listeners (ls : list ProcListener) (err : JS.Thrown)
    (origin : string) (code : Z) (w : World) : World * bool :=
  match ls with
  | [] => (w, false)
  | l :: rest =>
      match run_process_listener l err origin code w with
      | Some w' => run_process_listeners rest err origin code w'
      | None => (w, true)
      end
  end.

Definition listeners_for {A : Type} (name : string) (ls : list (string * A))
  : list A :=
  map snd (List.filter (fun l => String.eqb (fst l) name) ls).

(** The process ends: the ["exit"] listeners run, given the code and
    nothing else, then nothing runs any more. *)
Definition process_exit (code : Z) (w : World) : World :=
  let '(w', threw) :=
    run_process_listeners (listeners_for "exit" (process_on w))
      (JS.Value (pretty code) None) "undefined" code w in
  set_exit_code (Some (if threw then 7%Z else code)) w'.

(** A thrown value nobody caught.  Node hands it to the
    ["uncaughtException"] listeners and carries on; with no such listener
    the process ends with code 1, and when a listener itself throws, with
    code 7 and without the ["exit"] listeners being run. *)
Definition uncaught (err : JS.Thrown) (origin : string) (w : World) : World :=
  match listeners_for "uncaughtException" (process_on w) with
  | [] => process_exit 1 w
  | ls =>
      let '(w', threw) := run_process_listeners ls err origin 0 w in
      if threw then set_exit_code (Some 7%Z) w' else w'
  end.

Definition run_db_listener (l : DbListener) (w : World) : World :=
  match l with
  | OnDbOpen => on_db_open w
  end.

Definition server_not_running : JS.Error :=
  {| JS.err_text := "Error [ERR_SERVER_NOT_RUNNING]: Server is not running.";
     JS.err_stack := "Error [ERR_SERVER_NOT_RUNNING]: Server is not running.";
     JS.err_inspect :=
       "Error [ERR_SERVER_NOT_RUNNING]: Server is not running. { code: 'ERR_SERVER_NOT_RUNNING' }" |}.

Definition set_srv_state (st : SrvState) (s : Server) : Server :=
  {| srv_state := st; srv_port := srv_port s; srv_bound := srv_bound s;
     srv_conns := srv_conns s; srv_close_wrapped := srv_close_wrapped s;
     srv_close_listeners := srv_close_listeners s;
     srv_native_closes := srv_native_closes s |}.

Definition set_srv_conns (n : nat) (s : Server) : Server :=
  {| srv_state := srv_state s; srv_port := srv_port s; srv_bound := srv_bound s;
     srv_conns := n; srv_close_wrapped := srv_close_wrapped s;
     srv_close_listeners := srv_close_listeners s;
     srv_native_closes := srv_native_closes s |}.

(** The socket's own [close(cb)], as [net.Server] defines it: [cb] waits for
    the ["close"] event; a socket that is listening stops accepting; on a
    socket that is not running [cb] will be given an error. *)
Definition originalClose (cb : nat) (s : Server) : Server :=
  let running := match srv_state s with Listening => true | _ => false end in
  {| srv_state := if running then Closing else srv_state s;
     srv_port := srv_port s; srv_bound := srv_bound s;
     srv_conns := srv_conns s; srv_close_wrapped := srv_close_wrapped s;
     srv_close_listeners :=
       srv_close_listeners s
       ++ [{| cl_promise := cb; cl_not_running := negb running |}];
     srv_native_closes := S (srv_native_closes s) |}.

Definition resolve_with {A : Type} (v : A) (p : JS.Promise A) : JS.Promise A :=
  match p with
  | JS.Pending => JS.Resolved v
  | _ => p
  end.

Definition fire_close_listener (ps : list (JS.Promise CloseValue))
    (l : CloseListener) : list (JS.Promise CloseValue) :=
  alter
    (resolve_with
       (if cl_not_running l then CloseError server_not_running else CloseNoArgs))
    (cl_promise l) ps.

(** The ["close"] event is emitted once the socket has stopped accepting
    and no connection is left; its listeners run once each. *)
Definition emit_close_if_drained (w : World) : World :=
  match server w with
  | Some s =>
      match srv_state s, srv_conns s with
      | (Closing | Closed), 0 =>
          let ps := foldl fire_close_listener (close_promises w)
                      (srv_close_listeners s) in
          set_server
            (Some {| srv_state := Closed; srv_port := srv_port s;
                     srv_bound := srv_bound s; srv_conns := 0;
                     srv_close_wrapped := srv_close_wrapped s;
                     srv_close_listeners := [];
                     srv_native_closes := srv_native_closes s |})
            (set_close_promises ps w)
      | _, _ => w
      end
  | None => w
  end.

(** [server.close] as [startServer] replaces it:
    [() => new Promise((resolveClose) => { originalClose(resolveClose) })]. *)
Definition server_close (w : World) : World :=
  match server w with
  | Some s =>
      let k := length (close_promises w) in
      let w := set_close_promises (close_promises w ++ [JS.Pending]) w in
      emit_close_if_drained (set_server (Some (originalClose k s)) w)
  | None => w
  end.

(** The callback given to [app.listen].  On a pipe [server.address()] is
    the path, a string, and its [port] is [undefined]. *)
Definition on_listening (lib : Collaborators) (bound : Z) (w : World) : World :=
  match server w with
  | Some s =>
      let port := match listen_target lib (srv_port s) with
                  | PipePath _ => None
                  | _ => Some bound
                  end in
      let s := {| srv_state := Listening; srv_port := srv_port s;
                  srv_bound := port; srv_conns := srv_conns s;
                  srv_close_wrapped := srv_close_wrapped s;
                  srv_close_listeners := srv_close_listeners s;
                  srv_native_closes := srv_native_closes s |} in
      let w := set_server (Some s) w in
      let w := add_log
                 [LogInfo ("Listening on port "
                           ++ JS.interpolate (pretty <$> port))] w in
      let w := set_server
                 (Some {| srv_state := srv_state s; srv_port := srv_port s;
                          srv_bound := srv_bound s; srv_conns := srv_conns s;
                          srv_close_wrapped := true;
                          srv_close_listeners := srv_close_listeners s;
                          srv_native_closes := srv_native_closes s |}) w in
      set_start_promise (resolve_with TheServer <$> start_promise w) w
  | None => w
  end.

(** What can happen to the process from the outside.  The libraries
    reject, emit and call back with [Error] objects; so does the code
    that lets an [Error] escape elsewhere.  A thrown value of another kind
    is what [uncaught] is for. *)
Inductive Event :=
| EvDbOpen                                        (* mongoose emits "open" *)
| EvDbConnectFail (e : JS.Error)                  (* [mongoose.connect] rejects *)
| EvListening (bound : Z)                         (* the socket is bound *)
| EvBindFail (e : JS.Error)                       (* the socket emits "error" *)
| EvRequest (r : Request)                         (* a request arrives *)
| EvWindowReset                                   (* the limiter's window ends *)
| EvFetchDone (i : nat) (err : option JS.Error)   (* a warm-up call returns *)
| EvConnOpen                                      (* a connection is accepted *)
| EvConnEnd                                       (* a connection finishes *)
| EvClose                                         (* somebody calls [server.close()] *)
| EvUncaught (e : JS.Error) (origin : string).    (* an [Error] escapes elsewhere *)

Definition srv_state_of (w : World) : option SrvState :=
  srv_state <$> server w.

Section RunTime.

Variable lib : Collaborators.

(** A request on the listening socket goes through the stages of [app]. *)
Definition serve_request (r : Request) (w : World) : World :=
  let cx := {| Pipeline.cx_hits := limiter_hits w;
               Pipeline.cx_db := db_state w; Pipeline.cx_log := [];
               Pipeline.cx_compress := false; Pipeline.cx_trace := [] |} in
  let '(res, cx') := Pipeline.serve lib (app_stack w) r cx in
  let w := set_limiter_hits (Pipeline.cx_hits cx') w in
  let w := add_log (Pipeline.cx_log cx') w in
  set_served
    (served w ++ [{| ex_req := r; ex_res := res;
                     ex_trace := Pipeline.cx_trace cx' |}]) w.

Definition step (w : World) (ev : Event) : World :=
  match exit_code w with
  | Some _ => w
  | None =>
      match ev with
      | EvDbOpen =>
          let w := set_db_state DbOpen w in
          foldl (fun w l => run_db_listener l w) w
            (listeners_for "open" (db_on w))
      | EvDbConnectFail e =>
          (* the promise [mongoose.connect] returned is left without a
             handler; Node raises an unhandled rejection as an uncaught
             exception whose origin is "unhandledRejection" *)
          uncaught (JS.thrown_of_error e) "unhandledRejection"
            (set_db_state DbFailed w)
      | EvListening bound =>
          match srv_state_of w with
          | Some Starting => on_listening lib bound w
          | _ => w
          end
      | EvBindFail e =>
          match server w with
          | Some s =>
              match srv_state s with
              | Starting =>
                  (* the socket has no "error" listener: the error is thrown *)
                  uncaught (JS.thrown_of_error e) "uncaughtException"
                    (set_server (Some (set_srv_state BindFailed s)) w)
              | _ => w
              end
          | None => w
          end
      | EvRequest r =>
          match srv_state_of w with
          | Some Listening => serve_request r w
          | _ => w
          end
      | EvWindowReset => set_limiter_hits ∅ w
      | EvFetchDone i err =>
          match fetches w !! i with
          | Some _ => on_fetch_done err w
          | None => w
          end
      | EvConnOpen =>
          match server w with
          | Some s =>
              match srv_state s with
              | Listening => set_server (Some (set_srv_conns (S (srv_conns s)) s)) w
              | _ => w
              end
          | None => w
          end
      | EvConnEnd =>
          match server w with
          | Some s =>
              emit_close_if_drained
                (set_server (Some (set_srv_conns (pred (srv_conns s)) s)) w)
          | None => w
          end
      | EvClose =>
          (* only who holds the resolved handle can call it *)
          match start_promise w with
          | Some (JS.Resolved TheServer) => server_close w
          | _ => w
          end
      | EvUncaught e origin => uncaught (JS.thrown_of_error e) origin w
      end
  end.

Definition run (w : World) (evs : list Event) : World := foldl step w evs.

End RunTime.

(** ** Sample collaborators and requests *)

(** [ERR_SOCKET_BAD_PORT] as Node 18 words it (stack frames left out). *)
Definition sample_port_error (p : PortVal) : JS.Error :=
  let text :=
    "RangeError [ERR_SOCKET_BAD_PORT]: options.port should be >= 0 and < 65536. Received "
    ++ match p with
       | PortNum n => "type number (" ++ pretty n ++ ")"
       | PortStr s => "type string ('" ++ s ++ "')"
       end
    ++ "." in
  {| JS.err_text := text; JS.err_stack := text;
     JS.err_inspect := text ++ " { code: 'ERR_SOCKET_BAD_PORT' }" |}.

Definition sample_error : JS.Error :=
  {| JS.err_text := "Error: boom"; JS.err_stack := "Error: boom at start.js";
     JS.err_inspect := "Error: boom at start.js { code: 'EBOOM' }" |}.

(** Documentation stages at their library defaults: the JSON document is
    served at [/api-docs.json]; everything else is passed on.  A port
    string that is no numeral names a pipe, the empty one is refused; no
    mount path with pattern characters is in use. *)
Definition sample_lib : Collaborators :=
  {| string_target := fun s =>
       if String.eqb s "" then BadPort else PipePath s;
     listen_error := sample_port_error;
     mount_pattern := fun _ _ => false;
     swagger_docs := fun r =>
       if String.eqb (req_path r) "/api-docs.json"
       then Respond (send 200 "{}") else Next;
     access_line := fun r => req_path r;
     compression_filter := fun _ _ => true;
     compression_applies := fun _ _ => true;
     getRoutes := fun db r =>
       if String.eqb (req_path r) "/api/v1/fail" then Fail sample_error
       else if String.eqb (req_path r) "/api/v1/big"
       then Respond (send 200 "a large payload")
       else if String.eqb (req_path r) "/api/v1/wifis"
       then match db with
            | DbOpen => Respond (send 200 "[]")
            | _ => Fail sample_error
            end
       else Next;
     error_response := fun e => send 500 (JS.err_text e) |}.

Definition get (path ip : string) : Request :=
  {| req_method := GET; req_path := path; req_ip := ip; req_headers := ∅;
     req_body_kind := NoBody; req_body_len := 0; req_body_ok := true |}.

Definition with_header (k v : string) (r : Request) : Request :=
  {| req_method := req_method r; req_path := req_path r; req_ip := req_ip r;
     req_headers := <[k := v]> (req_headers r);
     req_body_kind := req_body_kind r; req_body_len := req_body_len r;
     req_body_ok := req_body_ok r |}.

Definition production : Env := {[ "NODE_ENV" := "production" ]}.

(** ** Notions the statements are written in *)

Local Open Scope list_scope.

(** The pipeline [startServer] assembles on a fresh [app]. *)
Definition pipeline (e : Env) : list Stage :=
  (if JS.strict_eq (e !! "NODE_ENV") "production" then [] else [SwaggerDocs])
  ++ [rateLimiter; Helmet; Cors; AliveRoute; ExpressLogger; Compression;
      JsonParser limit_100mb; UrlencodedParser limit_100mb;
      Routes (JS.or_else (e !! "API_PREFIX") "/api/v1/"); CatchAll;
      GenericErrorMiddleware].

(** The world right after [startServer], and after further events. *)
Definition started (lib : Collaborators) (e : Env) (port : option PortVal)
    (evs : list Event) : World :=
  run lib (startServer lib port (module_load e)) evs.


(** The listeners [m] calls of the socket's [close] leave behind when the
    first found it listening, and what they settle the promises to. *)
Definition listeners_upto (m : nat) : list CloseListener :=
  map (fun i => {| cl_promise := i; cl_not_running := negb (i =? 0)%nat |})
      (seq 0 m).

Definition close_outcome (i : nat) : CloseValue :=
  if (i =? 0)%nat then CloseNoArgs else CloseError server_not_running.

Definition settled (m : nat) : list (JS.Promise CloseValue) :=
  map (fun i => JS.Resolved (close_outcome i)) (seq 0 m).

Definition srv_shape (s : Server) (sp : option (JS.Promise Handle))
    (cps : list (JS.Promise CloseValue)) : Prop :=
  srv_native_closes s = length cps /\
  match srv_state s with
  | Starting | BindFailed =>
      sp = Some JS.Pending /\ cps = [] /\ srv_close_listeners s = []
  | Refused err =>
      sp = Some (JS.Rejected err) /\ cps = [] /\ srv_close_listeners s = []
  | Listening =>
      sp = Some (JS.Resolved TheServer) /\ cps = [] /\ srv_close_listeners s = []
      /\ srv_close_wrapped s = true
  | Closing =>
      sp = Some (JS.Resolved TheServer) /\ (0 < srv_conns s)%nat /\
      exists m, (0 < m)%nat /\ cps = replicate m JS.Pending /\
                srv_close_listeners s = listeners_upto m
  | Closed =>
      sp = Some (JS.Resolved TheServer) /\ srv_conns s = 0%nat /\
      srv_close_listeners s = [] /\
      exists m, (0 < m)%nat /\ cps = settled m
  end.

Record Sane (e : Env) (w : World) : Prop := {
  sane_env : env w = e;
  sane_process :
    process_on w = [("uncaughtException", OnUncaughtException); ("exit", OnExit)];
  sane_db_on : db_on w = [("open", OnDbOpen)];
  sane_exit : exit_code w = None;
  sane_stack : app_stack w = pipeline e;
  sane_fetches :
    JS.strict_eq (e !! "CACHE_ON_STARTUP") "true" = false -> fetches w = [];
  sane_server : exists s, server w = Some s /\
                          srv_shape s (start_promise w) (close_promises w)
}.

(** How an event moves the socket, given the connections in flight. *)
Definition next_state (st : SrvState) (conns : nat) (ev : Event) : SrvState :=
  match st, ev with
  | Starting, EvListening _ => Listening
  | Starting, EvBindFail _ => BindFailed
  | Listening, EvClose => if (conns =? 0)%nat then Closed else Closing
  | Closing, EvConnEnd => if (conns <=? 1)%nat then Closed else Closing
  | _, _ => st
  end.

(** Has the socket been bound (and so, the start promise resolved)? *)
Definition has_bound (st : SrvState) : bool :=
  match st with
  | Starting | BindFailed | Refused _ => false
  | _ => true
  end.


Definition next_conns (st : SrvState) (conns : nat) (ev : Event) : nat :=
  match st, ev with
  | Listening, EvConnOpen => S conns
  | _, EvConnEnd => pred conns
  | _, _ => conns
  end.

Definition conns_of (w : World) : option nat := srv_conns <$> server w.

Definition native_closes_of (w : World) : option nat :=
  srv_native_closes <$> server w.

(** The idempotent close the specification asks for, at a world [w] where
    [server.close()] has not been called yet: a second call leaves the
    number of calls of the socket's own [close] as the first left it, and
    the two promises end up the same. *)
Definition close_is_idempotent (lib : Collaborators) (w : World) : Prop :=
  let w1 := step lib w EvClose in
  let w2 := step lib w1 EvClose in
  native_closes_of w2 = native_closes_of w1
  /\ close_promises w2 !! 1%nat = close_promises w2 !! 0%nat.

(** Do the documentation stages, when registered, pass the request on? *)
Definition docs_pass (lib : Collaborators) (e : Env) (r : Request) : bool :=
  JS.strict_eq (e !! "NODE_ENV") "production"
  || match swagger_docs lib r with
     | Next => true
     | _ => false
     end.

Definition docs_stage (e : Env) : list Stage :=
  if JS.strict_eq (e !! "NODE_ENV") "production" then [] else [SwaggerDocs].

(** What a request meets on entry, before the pipeline has touched it. *)
Definition entry (w : World) : Pipeline.Ctx :=
  {| Pipeline.cx_hits := limiter_hits w; Pipeline.cx_db := db_state w;
     Pipeline.cx_log := [];
     Pipeline.cx_compress := false; Pipeline.cx_trace := [] |}.

(** The exchange that serving [r] in world [w] produces. *)
Definition answer (lib : Collaborators) (w : World) (r : Request) : Exchange :=
  let out := Pipeline.serve lib (app_stack w) r (entry w) in
  {| ex_req := r; ex_res := fst out; ex_trace := Pipeline.cx_trace (snd out) |}.

Definition is_limiter (s : Stage) : bool :=
  match s with
  | RateLimiter _ _ => true
  | _ => false
  end.

Definition too_many : Response :=
  send 429 "Too many requests, please try again later.".

(** Requests of [rs] that come from [ip] and get as far as the limiter. *)
Definition counted (lib : Collaborators) (e : Env) (ip : string)
    (rs : list Request) : nat :=
  length (List.filter
            (fun q => String.eqb (req_ip q) ip && docs_pass lib e q) rs).


Definition limited_exchange (e : Env) (r : Request) : Exchange :=
  {| ex_req := r; ex_res := too_many; ex_trace := docs_stage e ++ [rateLimiter] |}.

(** The stages [startServer] registers after the limiter. *)
Definition after_limiter (e : Env) : list Stage :=
  [Helmet; Cors; AliveRoute; ExpressLogger; Compression;
   JsonParser limit_100mb; UrlencodedParser limit_100mb;
   Routes (JS.or_else (e !! "API_PREFIX") "/api/v1/"); CatchAll;
   GenericErrorMiddleware].



(** The rate-limit claim at six copies of [r] arriving at [w] within one
    window: the sixth is answered with the rejection. *)
Definition sixth_is_rejected (lib : Collaborators) (w : World) (r : Request)
  : Prop :=
  ex_res <$> last (served (run lib w (replicate 6 (EvRequest r))))
  = Some too_many.

(** What the ["uncaughtException"] listener writes. *)
Definition uncaught_report (err : JS.Error) (origin : string) : list LogEntry :=
  [LogError ("Uncaught Exception: origin:" ++ origin ++ ", error: "
             ++ JS.err_text err ++ ", trace: " ++ JS.err_stack err);
   LogWarn "Server may be unstable after an uncaught exception. Please restart server"].

(** The warm-up address as the specification describes it: the service's
    own address, made of the resolved listen port and the resolved API
    prefix. *)
Definition expected_warmup_url (port : option PortVal) (e : Env)
    (endpoint : string) : string :=
  "http://localhost:" ++ port_text (resolve_port port e)
  ++ JS.or_else (e !! "API_PREFIX") "/api/v1/" ++ "wifis/patch/" ++ endpoint.

Definition warmup_fetches (e : Env) : list Fetch :=
  [{| f_url := warmup_url e "reloadFeatureCache"; f_method := PATCH |};
   {| f_url := warmup_url e "reloadHeatmapData"; f_method := PATCH |}].

(** The error, if any, that the stages of [stack] hand on for request [r]:
    that of the first stage, among those the request reaches, to fail. *)
Fixpoint propagated (lib : Collaborators) (stack : list Stage) (r : Request)
    (cx : Pipeline.Ctx) : option JS.Error :=
  match stack with
  | [] => None
  | s :: rest =>
      if Pipeline.applies lib s r then
        match Pipeline.run_stage lib s r (Pipeline.visit s cx) with
        | (Next, cx') => propagated lib rest r cx'
        | (Respond _, _) => None
        | (Fail err, _) => Some err
        end
      else propagated lib rest r cx
  end.

(** The stages [startServer] registers before the error reporter. *)
Definition before_reporter (e : Env) : list Stage :=
  docs_stage e
  ++ [rateLimiter; Helmet; Cors; AliveRoute; ExpressLogger; Compression;
      JsonParser limit_100mb; UrlencodedParser limit_100mb;
      Routes (JS.or_else (e !! "API_PREFIX") "/api/v1/"); CatchAll].

(** The opt-out claim as the specification words it, over everything a
    world has answered: no request carrying the header got a compressed
    response. *)
Definition opt_out_never_compressed (w : World) : Prop :=
  forall ex,
    ex ∈ served w ->
    is_Some (req_headers (ex_req ex) !! "x-no-compression") ->
    res_compressed (ex_res ex) = false.

(** ** Further notions: configuration, routing, counting *)

(** What an event adds to the outbound requests. *)
Definition fetches_of (e : Env) (ev : Event) : list Fetch :=
  match ev with
  | EvDbOpen =>
      if JS.strict_eq (e !! "CACHE_ON_STARTUP") "true"
      then warmup_fetches e else []
  | _ => []
  end.

(** What an event adds to the answered requests. *)
Definition served_of (lib : Collaborators) (w : World) (ev : Event)
  : list Exchange :=
  match ev, srv_state_of w with
  | EvRequest r, Some Listening => [answer lib w r]
  | _, _ => []
  end.

Definition is_db_open (ev : Event) : bool :=
  match ev with
  | EvDbOpen => true
  | _ => false
  end.

(** How often the storage connection opened during [evs]. *)
Definition opens (evs : list Event) : nat :=
  length (List.filter is_db_open evs).

(** How far along its life the socket is. *)
Definition rank (st : SrvState) : nat :=
  match st with
  | Starting => 0
  | Listening => 1
  | Closing => 2
  | Closed => 3
  | BindFailed => 4
  | Refused _ => 5
  end.

(** The steps in the life of the socket. *)
Definition advances (st st' : SrvState) : bool :=
  match st, st' with
  | Starting, Listening | Starting, BindFailed
  | Listening, Closing | Listening, Closed
  | Closing, Closed => true
  | _, _ => false
  end.

(** The path prefix the route table is mounted under. *)
Definition mount (e : Env) : string :=
  JS.or_else (e !! "API_PREFIX") "/api/v1/".

(** A request that gets as far as the body parsers and through them: the
    documentation stages pass it on, it is no CORS preflight, the liveness
    probe does not match it, and both parsers accept its body. *)
Definition through_parsers (lib : Collaborators) (e : Env) (r : Request)
  : bool :=
  docs_pass lib e r
  && negb (bool_decide (req_method r = OPTIONS))
  && negb (Pipeline.applies lib AliveRoute r)
  && match Pipeline.body_parser JsonBody limit_100mb r,
           Pipeline.body_parser UrlencodedBody limit_100mb r with
     | Next, Next => true
     | _, _ => false
     end.

(** The stages such a request has run when it leaves the parsers. *)
Definition parsers_trace (e : Env) : list Stage :=
  docs_stage e
  ++ [rateLimiter; Helmet; Cors; ExpressLogger; Compression;
      JsonParser limit_100mb; UrlencodedParser limit_100mb].

(** What the compression stage does to a response it has wrapped. *)
Definition compressed_by (lib : Collaborators) (r : Request) (res : Response)
  : Response :=
  {| res_status := res_status res; res_body := res_body res;
     res_compressed :=
       Pipeline.filter lib r res && compression_applies lib r res |}.



(** ** What holds in every world the started service can reach *)

Lemma startServer_stack lib e port :
  app_stack (startServer lib port (module_load e)) = pipeline e.
Proof.
  unfold startServer, pipeline, app_listen. cbn [module_load env].
  destruct (JS.strict_eq (e !! "NODE_ENV") "production");
    by destruct (listen_target lib (resolve_port port e)).
Qed.

Lemma startServer_sane lib e port :
  Sane e (startServer lib port (module_load e)).
Proof.
  split; try (apply startServer_stack);
    unfold startServer, app_listen; cbn [module_load env];
    destruct (JS.strict_eq (e !! "NODE_ENV") "production");
    destruct (listen_target lib (resolve_port port e)); cbn;
    try reflexivity; try (intros _; reflexivity);
    (eexists; split; [reflexivity | repeat split]).
Qed.

Lemma settled_length m : length (settled m) = m.
Proof. unfold settled. by rewrite length_map, length_seq. Qed.

Lemma settled_S m : settled (S m) = settled m ++ [JS.Resolved (close_outcome m)].
Proof. unfold settled. by rewrite seq_S, map_app. Qed.

Lemma listeners_upto_S m :
  listeners_upto (S m)
  = listeners_upto m ++ [{| cl_promise := m; cl_not_running := negb (m =? 0)%nat |}].
Proof. unfold listeners_upto. by rewrite seq_S, map_app. Qed.

Lemma fire_pending_at (done : list (JS.Promise CloseValue)) d l :
  cl_promise l = length done ->
  fire_close_listener (done ++ JS.Pending :: replicate d JS.Pending) l
  = (done ++ [JS.Resolved (if cl_not_running l
                           then CloseError server_not_running else CloseNoArgs)])
    ++ replicate d JS.Pending.
Proof.
  intros Hl. unfold fire_close_listener. rewrite Hl.
  rewrite alter_app_r_alt by lia. rewrite Nat.sub_diag. cbn.
  by rewrite <- app_assoc.
Qed.

(** When the ["close"] event fires, every waiting promise settles: the
    first call's with no argument, every later call's with the error. *)
Lemma fire_all j d :
  foldl fire_close_listener (settled j ++ replicate d JS.Pending)
    (map (fun i => {| cl_promise := i; cl_not_running := negb (i =? 0)%nat |})
         (seq j d))
  = settled (j + d).
Proof.
  revert j. induction d as [|d IH]; intros j.
  - cbn. by rewrite app_nil_r, Nat.add_0_r.
  - cbn [seq map foldl replicate].
    rewrite fire_pending_at by (cbn; by rewrite settled_length).
    cbn [cl_not_running].
    replace (if negb (j =? 0)%nat then CloseError server_not_running else CloseNoArgs)
      with (close_outcome j) by (unfold close_outcome; by destruct (j =? 0)%nat).
    rewrite <- settled_S, IH. f_equal. lia.
Qed.

Lemma fire_listeners_upto m :
  foldl fire_close_listener (replicate m JS.Pending) (listeners_upto m) = settled m.
Proof. apply (fire_all 0 m). Qed.

(** Closes the fields of [Sane] an event leaves alone. *)
Ltac sane_done := split; cbn; try done; try congruence; eauto.

(** The server is as before, and so is its shape. *)
Ltac same_server H :=
  eexists; (split; [eassumption|]); split; [done|]; by rewrite ?H.

Lemma step_sane lib e w ev : Sane e w -> Sane e (step lib w ev).
Proof.
  intros [He Hp Hd Hx Hs Hf (s & Hsrv & Hn & Hsh)].
  unfold step. rewrite Hx.
  destruct ev.
  - cbn. rewrite Hd. cbn. unfold on_db_open. cbn. rewrite He.
    assert (srv_shape s (start_promise w) (close_promises w)) by done.
    destruct (JS.strict_eq (e !! "CACHE_ON_STARTUP") "true") eqn:Hc; sane_done.
  - unfold uncaught. cbn. rewrite Hp. cbn. sane_done.
    eexists; split; [eassumption|]. done.
  - unfold srv_state_of. rewrite Hsrv. cbn.
    destruct (srv_state s) eqn:Hst; try (sane_done; same_server Hst).
    unfold on_listening. rewrite Hsrv. cbn.
    destruct Hsh as (Hsp & Hcps & Hls).
    rewrite Hsp. sane_done.
    eexists; split; [reflexivity|]. split; cbn; [done|]. by rewrite Hcps, Hls.
  - rewrite Hsrv. destruct (srv_state s) eqn:Hst; try (sane_done; same_server Hst).
    unfold uncaught. cbn. rewrite Hp. cbn. sane_done.
    eexists; split; [reflexivity|].
    split; cbn; done.
  - unfold srv_state_of. rewrite Hsrv. cbn.
    destruct (srv_state s) eqn:Hst; try (sane_done; same_server Hst).
    unfold serve_request.
    destruct (Pipeline.serve _ _ _ _) as [res cx']. sane_done.
    same_server Hst.
  - sane_done. same_server Hx.
  - destruct (fetches w !! i); [|sane_done; same_server Hx].
    destruct err; sane_done; same_server Hx.
  - rewrite Hsrv. destruct (srv_state s) eqn:Hst; try (sane_done; same_server Hst).
    sane_done. eexists; split; [reflexivity|].
    split; cbn; [done|]. by rewrite Hst.
  - rewrite Hsrv. unfold emit_close_if_drained. cbn.
    destruct (srv_state s) eqn:Hst.
    + sane_done. eexists; split; [reflexivity|]. split; cbn; [done|]. by rewrite Hst.
    + destruct Hsh as (Hsp & Hcps & Hls & Hwr).
      sane_done. eexists; split; [reflexivity|]. split; cbn; [done|]. by rewrite Hst.
    + destruct Hsh as (Hsp & Hconns & m & Hm & Hcps & Hls).
      destruct (srv_conns s) as [|[|c]] eqn:Hc; [lia| |]; cbn.
      * sane_done. eexists; split; [reflexivity|].
        rewrite Hcps, Hls, fire_listeners_upto.
        split; cbn; [by rewrite Hn, Hcps, settled_length, length_replicate|].
        repeat split; eauto.
      * sane_done. eexists; split; [reflexivity|]. split; cbn; [done|]. rewrite Hst.
        repeat split; eauto. lia.
    + destruct Hsh as (Hsp & Hconns & Hls & m & Hm & Hcps).
      rewrite Hconns. cbn. sane_done. eexists; split; [reflexivity|]. rewrite Hls. cbn.
      split; cbn; [done|]. repeat split; eauto.
    + sane_done. eexists; split; [reflexivity|]. split; cbn; [done|]. by rewrite Hst.
    + sane_done. eexists; split; [reflexivity|]. split; cbn; [done|]. by rewrite Hst.
  - destruct (start_promise w) as [[|[]|]|] eqn:Hsp'; try (sane_done; same_server Hsp').
    unfold server_close. rewrite Hsrv. unfold emit_close_if_drained, originalClose. cbn.
    destruct (srv_state s) eqn:Hst; cbn.
    + destruct Hsh as (Hsp & _). congruence.
    + destruct Hsh as (Hsp & Hcps & Hls & Hwr). rewrite Hcps, Hls. cbn.
      destruct (srv_conns s) eqn:Hc; sane_done.
      * eexists; split; [reflexivity|]. split; cbn; [by rewrite Hn, Hcps|].
        repeat split; eauto.
      * eexists; split; [reflexivity|]. split; cbn; [by rewrite Hn, Hcps|].
        repeat split; eauto; try lia.
    + destruct Hsh as (Hsp & Hconns & m & Hm & Hcps & Hls).
      destruct (srv_conns s) eqn:Hc; [lia|]. sane_done.
      eexists; split; [reflexivity|].
      split; cbn; [by rewrite Hn, length_app; cbn; lia|].
      repeat split; eauto; try lia. exists (S m). split; [lia|].
      rewrite Hcps, Hls, length_replicate. split.
      * by rewrite replicate_S_end.
      * rewrite listeners_upto_S. by destruct m; [lia|].
    + destruct Hsh as (Hsp & Hconns & Hls & m & Hm & Hcps).
      rewrite Hconns, Hls. cbn. sane_done.
      eexists; split; [reflexivity|]. rewrite Hcps, settled_length.
      pose proof (fire_pending_at (settled m) 0
                    {| cl_promise := m; cl_not_running := true |}) as Hfire.
      cbn in Hfire. rewrite Hfire by (by rewrite settled_length). rewrite app_nil_r.
      split; cbn; [rewrite Hn, Hcps, length_app, !settled_length; cbn; lia|].
      repeat split; eauto. exists (S m). split; [lia|].
      rewrite settled_S. unfold close_outcome. by destruct m; [lia|].
    + destruct Hsh as (Hsp & _). congruence.
    + destruct Hsh as (Hsp & _). congruence.
  - unfold uncaught. rewrite Hp. cbn. sane_done.
    eexists; split; [eassumption|]. done.
Qed.

Lemma run_sane lib e w evs : Sane e w -> Sane e (run lib w evs).
Proof.
  revert w. induction evs as [|ev evs IH]; intros w Hw; [done|].
  cbn. apply IH. by apply step_sane.
Qed.

Lemma started_sane lib e port evs : Sane e (started lib e port evs).
Proof. apply run_sane, startServer_sane. Qed.

Lemma run_app lib w evs1 evs2 :
  run lib w (evs1 ++ evs2) = run lib (run lib w evs1) evs2.
Proof. unfold run. apply foldl_app. Qed.

Lemma started_snoc lib e port evs ev :
  started lib e port (evs ++ [ev]) = step lib (started lib e port evs) ev.
Proof. unfold started. by rewrite run_app. Qed.

Lemma step_srv_state lib e w s ev :
  Sane e w -> server w = Some s ->
  srv_state_of (step lib w ev)
  = Some (next_state (srv_state s) (srv_conns s) ev).
Proof.
  intros [He Hp Hd Hx Hs Hf (s' & Hsrv' & Hn & Hsh)] Hsrv.
  assert (s' = s) as -> by congruence. clear Hsrv'.
  unfold step, srv_state_of. rewrite Hx.
  destruct ev; cbn.
  - rewrite Hd. cbn. unfold on_db_open. cbn. rewrite He.
    destruct (JS.strict_eq _ _); cbn; rewrite Hsrv; cbn; by destruct (srv_state s).
  - unfold uncaught. cbn. rewrite Hp. cbn. rewrite Hsrv. cbn. by destruct (srv_state s).
  - rewrite Hsrv. cbn.
    destruct (srv_state s) eqn:Hst; cbn; rewrite ?Hsrv; cbn; rewrite ?Hst; try done.
    unfold on_listening. rewrite Hsrv. by cbn.
  - rewrite Hsrv.
    destruct (srv_state s) eqn:Hst; cbn; rewrite ?Hsrv; cbn; rewrite ?Hst; try done.
    unfold uncaught. cbn. rewrite Hp. by cbn.
  - rewrite Hsrv. cbn.
    destruct (srv_state s) eqn:Hst; cbn; rewrite ?Hsrv; cbn; rewrite ?Hst; try done.
    unfold serve_request. destruct (Pipeline.serve _ _ _ _). cbn. rewrite Hsrv. cbn.
    by rewrite Hst.
  - rewrite Hsrv. cbn. by destruct (srv_state s).
  - destruct (fetches w !! i); [destruct err|]; cbn; rewrite Hsrv; cbn;
      by destruct (srv_state s).
  - rewrite Hsrv.
    destruct (srv_state s) eqn:Hst; cbn; rewrite ?Hsrv; cbn; by rewrite ?Hst.
  - rewrite Hsrv. unfold emit_close_if_drained. cbn.
    destruct (srv_state s) eqn:Hst; cbn; rewrite ?Hst; try done.
    + destruct Hsh as (_ & Hc & _).
      destruct (srv_conns s) as [|[|c]]; [lia| |]; by cbn; rewrite ?Hst.
    + destruct Hsh as (_ & Hc & _). by rewrite Hc.
  - destruct (start_promise w) as [[|[]|]|] eqn:Hsp; cbn; rewrite ?Hsrv; cbn.
    + destruct (srv_state s); try done; destruct Hsh as (? & _); congruence.
    + unfold server_close. rewrite Hsrv. unfold emit_close_if_drained, originalClose.
      cbn.
      destruct (srv_state s) eqn:Hst; cbn; try done.
      * destruct (srv_conns s); by cbn.
      * destruct Hsh as (_ & Hc & _). destruct (srv_conns s); [lia|by cbn].
      * destruct Hsh as (_ & Hc & _). by rewrite Hc.
    + destruct (srv_state s); try done; destruct Hsh as (? & _);
        try destruct Hsh as (? & _); congruence.
    + destruct (srv_state s); try done; destruct Hsh as (? & _);
        try destruct Hsh as (? & _); congruence.
  - unfold uncaught. rewrite Hp. cbn. rewrite Hsrv. cbn. by destruct (srv_state s).
Qed.

Lemma sane_start_promise e w :
  Sane e w ->
  exists s, server w = Some s /\
            start_promise w
            = Some (match srv_state s with
                    | Refused err => JS.Rejected err
                    | st => if has_bound st
                            then JS.Resolved TheServer else JS.Pending
                    end).
Proof.
  intros [_ _ _ _ _ _ (s & Hsrv & _ & Hsh)]. exists s. split; [done|].
  destruct (srv_state s); cbn; tauto.
Qed.

Lemma srv_state_of_Some w st :
  srv_state_of w = Some st <-> exists s, server w = Some s /\ srv_state s = st.
Proof.
  unfold srv_state_of. destruct (server w) as [s|]; cbn; split.
  - intros [= <-]. eauto.
  - intros (s' & [= <-] & <-). done.
  - done.
  - intros (s' & [=] & _).
Qed.

Lemma served_serve_request lib w r :
  served (serve_request lib r w) = served w ++ [answer lib w r].
Proof.
  unfold serve_request, answer, entry.
  by destruct (Pipeline.serve _ _ _ _).
Qed.

Ltac frame_done H :=
  cbn; rewrite ?H, ?app_nil_r; cbn; repeat split;
  rewrite <- ?app_assoc, ?app_nil_r; done.

(** What an event leaves alone and what it adds. *)
Lemma step_frame lib e w ev :
  Sane e w ->
  db_url (step lib w ev) = db_url w
  /\ srv_port <$> server (step lib w ev) = srv_port <$> server w
  /\ fetches (step lib w ev) = fetches w ++ fetches_of e ev
  /\ served (step lib w ev) = served w ++ served_of lib w ev.
Proof.
  intros [He Hp Hd Hx Hs Hf (s & Hsrv & Hn & Hsh)].
  unfold step, served_of, srv_state_of. rewrite Hx, Hsrv.
  destruct ev; cbn.
  - rewrite Hd. cbn. unfold on_db_open. cbn. rewrite He.
    destruct (JS.strict_eq _ _); frame_done Hsrv.
  - unfold uncaught. cbn. rewrite Hp. frame_done Hsrv.
  - destruct (srv_state s); try frame_done Hsrv.
    unfold on_listening. rewrite Hsrv. frame_done Hsrv.
  - destruct (srv_state s); try frame_done Hsrv.
    unfold uncaught. cbn. rewrite Hp. frame_done Hsrv.
  - destruct (srv_state s); try frame_done Hsrv.
    rewrite served_serve_request.
    unfold serve_request. destruct (Pipeline.serve _ _ _ _).
    frame_done Hsrv.
  - frame_done Hsrv.
  - destruct (fetches w !! i); [destruct err|]; frame_done Hsrv.
  - destruct (srv_state s); frame_done Hsrv.
  - unfold emit_close_if_drained. cbn.
    destruct (srv_state s); try frame_done Hsrv;
      destruct (pred (srv_conns s)); frame_done Hsrv.
  - destruct (start_promise w) as [[|[]|]|]; try frame_done Hsrv.
    unfold server_close. rewrite Hsrv.
    unfold emit_close_if_drained, originalClose. cbn.
    destruct (srv_state s); try frame_done Hsrv;
      destruct (srv_conns s); frame_done Hsrv.
  - unfold uncaught. rewrite Hp. frame_done Hsrv.
Qed.

Lemma started_frame lib e port evs :
  db_url (started lib e port evs) = Some (databaseURL e)
  /\ srv_port <$> server (started lib e port evs) = Some (resolve_port port e)
  /\ fetches (started lib e port evs)
     = concat (replicate (opens evs) (fetches_of e EvDbOpen)).
Proof.
  induction evs as [|ev evs IH] using rev_ind.
  - unfold started, startServer, app_listen. cbn [run foldl module_load env].
    destruct (JS.strict_eq (e !! "NODE_ENV") "production");
      by destruct (listen_target lib (resolve_port port e)).
  - rewrite started_snoc.
    destruct (step_frame lib e _ ev (started_sane lib e port evs))
      as (-> & -> & -> & _).
    destruct IH as (-> & -> & ->). split; [done|]. split; [done|].
    unfold opens. rewrite List.filter_app, length_app. cbn [List.filter].
    destruct ev; cbn [is_db_open length fetches_of];
      rewrite ?Nat.add_0_r, ?app_nil_r; try done.
    rewrite Nat.add_1_r, replicate_S_end, concat_app. cbn [concat].
    by rewrite app_nil_r.
Qed.


Lemma run_bind_failed lib e w evs :
  Sane e w -> srv_state_of w = Some BindFailed ->
  srv_state_of (run lib w evs) = Some BindFailed.
Proof.
  revert w. induction evs as [|ev evs IH]; intros w Hw Hst; [done|].
  cbn. apply IH; [by apply step_sane|].
  apply srv_state_of_Some in Hst as (s & Hsrv & Hst).
  rewrite (step_srv_state lib e w s ev Hw Hsrv), Hst. by destruct ev.
Qed.


Lemma pending_of_unbound e w st :
  Sane e w -> srv_state_of w = Some st -> has_bound st = false ->
  (forall err, st <> Refused err) ->
  start_promise w = Some JS.Pending.
Proof.
  intros Hw Hst Hb Hne. apply srv_state_of_Some in Hst as (s & Hsrv & <-).
  destruct (sane_start_promise e w Hw) as (s' & Hsrv' & ->).
  assert (s' = s) as -> by congruence.
  destruct (srv_state s) as [| | | | |err]; try done. by destruct (Hne err).
Qed.







Lemma step_srv_conns lib e w s ev :
  Sane e w -> server w = Some s ->
  conns_of (step lib w ev)
  = Some (next_conns (srv_state s) (srv_conns s) ev).
Proof.
  intros [He Hp Hd Hx Hs Hf (s' & Hsrv' & Hn & Hsh)] Hsrv.
  assert (s' = s) as -> by congruence. clear Hsrv'.
  unfold step, conns_of. rewrite Hx.
  destruct ev; cbn.
  - rewrite Hd. cbn. unfold on_db_open. cbn. rewrite He.
    destruct (JS.strict_eq _ _); cbn; rewrite Hsrv; cbn; by destruct (srv_state s).
  - unfold uncaught. cbn. rewrite Hp. cbn. rewrite Hsrv. cbn. by destruct (srv_state s).
  - unfold srv_state_of. rewrite Hsrv. cbn.
    destruct (srv_state s) eqn:Hst; cbn; rewrite ?Hsrv; cbn; try done.
    unfold on_listening. rewrite Hsrv. by cbn.
  - rewrite Hsrv. destruct (srv_state s) eqn:Hst; cbn; rewrite ?Hsrv; cbn; try done.
    unfold uncaught. cbn. rewrite Hp. by cbn.
  - unfold srv_state_of. rewrite Hsrv. cbn.
    destruct (srv_state s) eqn:Hst; cbn; rewrite ?Hsrv; cbn; try done.
    unfold serve_request. destruct (Pipeline.serve _ _ _ _). cbn. by rewrite Hsrv.
  - rewrite Hsrv. cbn. by destruct (srv_state s).
  - destruct (fetches w !! i); [destruct err|]; cbn; rewrite Hsrv; cbn;
      by destruct (srv_state s).
  - rewrite Hsrv. destruct (srv_state s) eqn:Hst; cbn; by rewrite ?Hsrv.
  - rewrite Hsrv. unfold emit_close_if_drained. cbn.
    destruct (srv_state s) eqn:Hst; cbn; try done;
      destruct (srv_conns s) as [|[|c]]; by cbn.
  - destruct (start_promise w) as [[|[]|]|] eqn:Hsp; cbn; rewrite ?Hsrv; cbn;
      try (by destruct (srv_state s)).
    unfold server_close. rewrite Hsrv. unfold emit_close_if_drained, originalClose. cbn.
    destruct (srv_state s) eqn:Hst; cbn; try done;
      destruct (srv_conns s); by cbn.
  - unfold uncaught. rewrite Hp. cbn. rewrite Hsrv. cbn. by destruct (srv_state s).
Qed.

Lemma fire_length ps ls :
  length (foldl fire_close_listener ps ls) = length ps.
Proof.
  revert ps. induction ls as [|l ls IH]; intros ps; [done|].
  cbn. rewrite IH. unfold fire_close_listener. apply length_alter.
Qed.

Lemma step_close_count lib e w ev :
  Sane e w ->
  length (close_promises (step lib w ev))
  = match ev, start_promise w with
    | EvClose, Some (JS.Resolved TheServer) => S (length (close_promises w))
    | _, _ => length (close_promises w)
    end.
Proof.
  intros [He Hp Hd Hx Hs Hf (s & Hsrv & Hn & Hsh)].
  unfold step. rewrite Hx.
  destruct ev; cbn.
  - rewrite Hd. cbn. unfold on_db_open. cbn. rewrite He.
    by destruct (JS.strict_eq _ _).
  - unfold uncaught. cbn. by rewrite Hp.
  - unfold srv_state_of. rewrite Hsrv. cbn.
    destruct (srv_state s); try done.
    unfold on_listening. by rewrite Hsrv.
  - rewrite Hsrv. destruct (srv_state s); try done.
    unfold uncaught. cbn. by rewrite Hp.
  - unfold srv_state_of. rewrite Hsrv. cbn.
    destruct (srv_state s); try done.
    unfold serve_request. by destruct (Pipeline.serve _ _ _ _).
  - done.
  - by destruct (fetches w !! i); [destruct err|].
  - rewrite Hsrv. by destruct (srv_state s).
  - rewrite Hsrv. unfold emit_close_if_drained. cbn.
    destruct (srv_state s); try done;
      destruct (pred (srv_conns s)); cbn; by rewrite ?fire_length.
  - destruct (start_promise w) as [[|[]|]|]; try done.
    unfold server_close. rewrite Hsrv. unfold emit_close_if_drained, originalClose. cbn.
    destruct (srv_state s); cbn;
      try destruct (srv_conns s); cbn; rewrite ?fire_length, ?length_app; cbn; lia.
  - unfold uncaught. by rewrite Hp.
Qed.

Lemma conns_of_Some w n :
  conns_of w = Some n <-> exists s, server w = Some s /\ srv_conns s = n.
Proof.
  unfold conns_of. destruct (server w) as [s|]; cbn; split.
  - intros [= <-]. eauto.
  - intros (s' & [= <-] & <-). done.
  - done.
  - intros (s' & [=] & _).
Qed.

Lemma settled_lookup m i p :
  settled m !! i = Some p -> p = JS.Resolved (close_outcome i).
Proof.
  unfold settled. rewrite list_lookup_fmap. intros H.
  destruct (seq 0 m !! i) as [j|] eqn:Hj; [|done].
  apply lookup_seq in Hj as [-> _]. cbn in H. congruence.
Qed.

(** Where the close promises stand, in any reachable world. *)
Lemma sane_close_promises e w :
  Sane e w ->
  native_closes_of w = Some (length (close_promises w))
  /\ forall i p,
      close_promises w !! i = Some p ->
      (p = JS.Pending /\ srv_state_of w = Some Closing
       /\ exists n, conns_of w = Some (S n))
      \/ (p = JS.Resolved (close_outcome i) /\ srv_state_of w = Some Closed
          /\ conns_of w = Some 0%nat).
Proof.
  intros [_ _ _ _ _ _ (s & Hsrv & Hn & Hsh)].
  unfold native_closes_of, srv_state_of, conns_of. rewrite Hsrv. cbn.
  split; [by rewrite Hn|]. intros i p Hp.
  destruct (srv_state s).
  - destruct Hsh as (_ & Hcps & _). by rewrite Hcps in Hp.
  - destruct Hsh as (_ & Hcps & _). by rewrite Hcps in Hp.
  - destruct Hsh as (_ & Hc & m & _ & Hcps & _). left.
    rewrite Hcps in Hp. apply lookup_replicate in Hp as [-> _].
    repeat split. exists (pred (srv_conns s)). f_equal. lia.
  - destruct Hsh as (_ & Hc & _ & m & _ & Hcps). right.
    rewrite Hcps in Hp. apply settled_lookup in Hp. by rewrite Hc.
  - destruct Hsh as (_ & Hcps & _). by rewrite Hcps in Hp.
  - destruct Hsh as (_ & Hcps & _). by rewrite Hcps in Hp.
Qed.

Lemma step_server lib e w s ev :
  Sane e w -> server w = Some s ->
  exists s', server (step lib w ev) = Some s'
             /\ srv_state s' = next_state (srv_state s) (srv_conns s) ev
             /\ srv_conns s' = next_conns (srv_state s) (srv_conns s) ev.
Proof.
  intros Hw Hsrv.
  pose proof (step_srv_state lib e w s ev Hw Hsrv) as Hst.
  pose proof (step_srv_conns lib e w s ev Hw Hsrv) as Hc.
  apply srv_state_of_Some in Hst as (s1 & Hs1 & Hst).
  apply conns_of_Some in Hc as (s2 & Hs2 & Hc).
  assert (s2 = s1) as -> by congruence. eauto.
Qed.

(** A closing socket is closed once its connections have all finished. *)
Lemma drain lib e n :
  forall w s,
    Sane e w -> server w = Some s ->
    srv_state s = Closing \/ srv_state s = Closed -> srv_conns s = n ->
    srv_state_of (run lib w (replicate n EvConnEnd)) = Some Closed
    /\ length (close_promises (run lib w (replicate n EvConnEnd)))
       = length (close_promises w).
Proof.
  induction n as [|n IH]; intros w s Hw Hsrv Hst Hc.
  - cbn. split; [|done]. apply srv_state_of_Some. exists s. split; [done|].
    destruct Hst as [Hst|Hst]; [|done].
    destruct Hw as [_ _ _ _ _ _ (s' & Hsrv' & _ & Hsh)].
    assert (s' = s) as -> by congruence.
    rewrite Hst in Hsh. destruct Hsh as (_ & Hpos & _). lia.
  - cbn [replicate run foldl].
    destruct (step_server lib e w s EvConnEnd Hw Hsrv) as (s' & Hsrv' & Hst' & Hc').
    pose proof (step_close_count lib e w EvConnEnd Hw) as Hlen. cbn in Hlen.
    destruct (IH (step lib w EvConnEnd) s') as [Hfin Hlen'];
      [by apply step_sane|done| |by rewrite Hc', Hc;
                                  destruct (srv_state s)|].
    + rewrite Hst'. destruct Hst as [-> | ->]; cbn; [|by right].
      destruct (srv_conns s <=? 1)%nat; [by right|by left].
    + unfold run in *. split; [done|]. by rewrite Hlen', Hlen.
Qed.

Lemma settled_of_closed e w :
  Sane e w -> srv_state_of w = Some Closed ->
  close_promises w = settled (length (close_promises w)).
Proof.
  intros [_ _ _ _ _ _ (s & Hsrv & _ & Hsh)] Hst.
  apply srv_state_of_Some in Hst as (s' & Hsrv' & Hst).
  assert (s' = s) as -> by congruence. rewrite Hst in Hsh.
  destruct Hsh as (_ & _ & _ & m & _ & ->). by rewrite settled_length.
Qed.

Lemma listening_world e w :
  Sane e w -> srv_state_of w = Some Listening ->
  start_promise w = Some (JS.Resolved TheServer) /\ close_promises w = [].
Proof.
  intros [_ _ _ _ _ _ (s & Hsrv & _ & Hsh)] Hst.
  apply srv_state_of_Some in Hst as (s' & Hsrv' & Hst).
  assert (s' = s) as -> by congruence. rewrite Hst in Hsh. tauto.
Qed.

Lemma resolved_of_bound e w s :
  Sane e w -> server w = Some s -> has_bound (srv_state s) = true ->
  start_promise w = Some (JS.Resolved TheServer).
Proof.
  intros Hw Hsrv Hb. destruct (sane_start_promise e w Hw) as (s' & Hsrv' & ->).
  assert (s' = s) as -> by congruence. by destruct (srv_state s).
Qed.

(** C2, counterexample.  On a listening server, a second [server.close()]
    calls the socket's own [close] a second time, and its promise resolves
    with an error object where the first resolved with nothing. *)
Lemma close_twice_is_not_idempotent :
  ~ close_is_idempotent sample_lib
      (started sample_lib production None [EvListening 5000]).
Proof.
  unfold close_is_idempotent. vm_compute. intros [H _]. discriminate H.
Qed.

(** C2, as amended.  Every call of [server.close()] makes one promise and
    calls the socket's own [close] once more.  A close promise is pending
    exactly while the socket is closing with connections still in flight,
    and is resolved once they have all finished: the first call's with no
    argument, every later call's with the socket's "not running" error.
    From a listening server with [n] connections in flight, the promises
    are resolved after the [n] connections have finished. *)
Theorem close_calls_the_socket_close_each_time lib e port evs :
  let w := started lib e port evs in
  native_closes_of w = Some (length (close_promises w))
  /\ (start_promise w = Some (JS.Resolved TheServer) ->
      length (close_promises (step lib w EvClose))
      = S (length (close_promises w)))
  /\ (forall i p,
         close_promises w !! i = Some p ->
         (p = JS.Pending /\ srv_state_of w = Some Closing
          /\ exists n, conns_of w = Some (S n))
         \/ (p = JS.Resolved (close_outcome i) /\ srv_state_of w = Some Closed
             /\ conns_of w = Some 0%nat))
  /\ (forall n,
         srv_state_of w = Some Listening -> conns_of w = Some n ->
         close_promises (run lib w (EvClose :: replicate n EvConnEnd))
         = [JS.Resolved CloseNoArgs]
         /\ close_promises (run lib w (EvClose :: EvClose :: replicate n EvConnEnd))
            = [JS.Resolved CloseNoArgs;
               JS.Resolved (CloseError server_not_running)]).
Proof.
  intros w. pose proof (started_sane lib e port evs) as Hw. fold w in Hw.
  destruct (sane_close_promises e w Hw) as [Hnative Hshape].
  split; [done|]. split; [|split; [done|]].
  - intros Hsp. rewrite (step_close_count lib e w EvClose Hw). by rewrite Hsp.
  - intros n Hst Hc.
    destruct (listening_world e w Hw Hst) as [Hsp Hcps].
    apply srv_state_of_Some in Hst as (s & Hsrv & Hst).
    apply conns_of_Some in Hc as (s' & Hsrv' & Hc).
    assert (s' = s) as -> by congruence. clear Hsrv'.
    (* the first call *)
    pose proof (step_sane lib e w EvClose Hw) as Hw1.
    destruct (step_server lib e w s EvClose Hw Hsrv) as (s1 & Hsrv1 & Hst1 & Hc1).
    rewrite Hst in Hst1, Hc1. cbn in Hst1, Hc1. rewrite Hc in Hst1, Hc1.
    pose proof (step_close_count lib e w EvClose Hw) as Hlen1.
    rewrite Hsp, Hcps in Hlen1. cbn in Hlen1.
    assert (srv_state s1 = Closing \/ srv_state s1 = Closed) as Hcl1
        by (rewrite Hst1; destruct (n =? 0)%nat; tauto).
    (* the second call *)
    pose proof (step_sane lib e _ EvClose Hw1) as Hw2.
    destruct (step_server lib e _ s1 EvClose Hw1 Hsrv1) as (s2 & Hsrv2 & Hst2 & Hc2).
    assert (srv_state s2 = srv_state s1) as Hst2'
        by (rewrite Hst2; destruct Hcl1 as [-> | ->]; done).
    assert (srv_conns s2 = n) as Hc2'
        by (rewrite Hc2; destruct Hcl1 as [-> | ->]; done).
    pose proof (step_close_count lib e _ EvClose Hw1) as Hlen2.
    rewrite (resolved_of_bound e _ s1 Hw1 Hsrv1), Hlen1 in Hlen2
      by (destruct Hcl1 as [-> | ->]; done).
    split.
    + destruct (drain lib e n _ s1 Hw1 Hsrv1 Hcl1 Hc1) as [Hfin Hlen].
      change (run lib w (EvClose :: replicate n EvConnEnd))
        with (run lib (step lib w EvClose) (replicate n EvConnEnd)).
      rewrite (settled_of_closed e _ (run_sane lib e _ _ Hw1) Hfin).
      by rewrite Hlen, Hlen1.
    + rewrite <- Hst2' in Hcl1.
      destruct (drain lib e n _ s2 Hw2 Hsrv2 Hcl1 Hc2') as [Hfin Hlen].
      change (run lib w (EvClose :: EvClose :: replicate n EvConnEnd))
        with (run lib (step lib (step lib w EvClose) EvClose)
                (replicate n EvConnEnd)).
      rewrite (settled_of_closed e _ (run_sane lib e _ _ Hw2) Hfin).
      by rewrite Hlen, Hlen2.
Qed.

(** Two connections in flight, two calls of [server.close()]: once both
    connections have finished, the first promise holds nothing and the
    second the error. *)
Lemma close_calls_the_socket_close_each_time_witness :
  close_promises
    (run sample_lib
       (started sample_lib production None
          [EvListening 5000; EvConnOpen; EvConnOpen])
       (EvClose :: EvClose :: replicate 2 EvConnEnd))
  = [JS.Resolved CloseNoArgs; JS.Resolved (CloseError server_not_running)].
Proof.
  refine (proj2 (proj2 (proj2 (proj2
            (close_calls_the_socket_close_each_time sample_lib production None
               [EvListening 5000%Z; EvConnOpen; EvConnOpen])))
            2%nat _ _)).
  - vm_compute. reflexivity.
  - vm_compute. reflexivity.
Defined.

(** *** The pipeline, stage by stage *)

Lemma handle_error_hits lib stack err cx :
  Pipeline.cx_hits (snd (Pipeline.handle_error lib stack err cx))
  = Pipeline.cx_hits cx.
Proof.
  revert cx. induction stack as [|s stack IH]; intros cx; [done|].
  cbn. by destruct (is_error_handler s).
Qed.

Lemma handle_hits lib stack r cx :
  Forall (fun s => is_limiter s = false) stack ->
  Pipeline.cx_hits (snd (Pipeline.handle lib stack r cx)) = Pipeline.cx_hits cx.
Proof.
  revert cx. induction stack as [|s stack IH]; intros cx Hno; [done|].
  apply Forall_cons in Hno as [Hs Hno]. cbn.
  destruct (Pipeline.applies lib s r); [|by apply IH].
  destruct s; try discriminate Hs; cbn;
    repeat match goal with
           | |- context [match ?o with Next => _ | Respond _ => _ | Fail _ => _ end] =>
               destruct o eqn:?
           | |- context [if ?b then _ else _] => destruct b
           end;
    cbn; rewrite ?IH, ?handle_error_hits; done.
Qed.

Lemma pipeline_split e :
  pipeline e = docs_stage e ++ rateLimiter :: after_limiter e.
Proof. reflexivity. Qed.

Lemma after_limiter_no_limiter e :
  Forall (fun s => is_limiter s = false) (after_limiter e).
Proof. unfold after_limiter. repeat constructor. Qed.

Lemma docs_pass_cases lib e r :
  docs_pass lib e r = true ->
  docs_stage e = [] \/ (docs_stage e = [SwaggerDocs] /\ swagger_docs lib r = Next).
Proof.
  unfold docs_pass, docs_stage.
  destruct (JS.strict_eq (e !! "NODE_ENV") "production"); cbn; [by left|].
  destruct (swagger_docs lib r); try done. by right.
Qed.



(** A request the documentation stages pass on, from an identity already
    counted five times, is rejected by the limiter. *)
Lemma answer_limited lib e w r :
  app_stack w = pipeline e ->
  docs_pass lib e r = true ->
  (5 <= Pipeline.hits_of (limiter_hits w) (req_ip r))%nat ->
  answer lib w r = limited_exchange e r.
Proof.
  intros Hstack Hdocs Hhits.
  unfold answer, limited_exchange, Pipeline.serve. rewrite Hstack, pipeline_split.
  assert ((5 <? S (Pipeline.hits_of (limiter_hits w) (req_ip r)))%nat = true)
    as Hlt by (apply Nat.ltb_lt; lia).
  destruct (docs_pass_cases lib e r Hdocs) as [-> | [-> Hnext]];
    cbn; rewrite ?Hnext; cbn;
    unfold Pipeline.rate_limit; cbn; cbn in Hlt; rewrite Hlt; reflexivity.
Qed.

Lemma step_request lib e w r :
  Sane e w -> srv_state_of w = Some Listening ->
  step lib w (EvRequest r) = serve_request lib r w.
Proof.
  intros Hw Hst. unfold step. by rewrite (sane_exit e w Hw), Hst.
Qed.


Lemma handle_cons lib s rest r cx :
  Pipeline.handle lib (s :: rest) r cx
  = if Pipeline.applies lib s r then
      match Pipeline.run_stage lib s r (Pipeline.visit s cx) with
      | (Next, cx') => Pipeline.handle lib rest r cx'
      | (Respond res, cx') => (res, cx')
      | (Fail err, cx') => Pipeline.handle_error lib rest err cx'
      end
    else Pipeline.handle lib rest r cx.
Proof. reflexivity. Qed.

(** The limiter counts exactly the requests that reach it. *)
Lemma hits_serve_request lib e w r :
  app_stack w = pipeline e ->
  limiter_hits (serve_request lib r w)
  = if docs_pass lib e r
    then <[req_ip r := S (Pipeline.hits_of (limiter_hits w) (req_ip r))]>
           (limiter_hits w)
    else limiter_hits w.
Proof.
  intros Hstack.
  assert (limiter_hits (serve_request lib r w)
          = Pipeline.cx_hits
              (snd (Pipeline.handle lib (app_stack w) r (entry w)))) as ->.
  { unfold serve_request, Pipeline.serve, Pipeline.finish, entry.
    by destruct (Pipeline.handle _ _ _ _). }
  rewrite Hstack, pipeline_split. unfold docs_pass, docs_stage.
  pose proof (after_limiter_no_limiter e) as Hno.
  assert (forall cx,
             Pipeline.cx_hits
               (snd (Pipeline.handle lib (rateLimiter :: after_limiter e) r cx))
             = <[req_ip r := S (Pipeline.hits_of (Pipeline.cx_hits cx) (req_ip r))]>
                 (Pipeline.cx_hits cx)) as Hlim.
  { intros cx. rewrite handle_cons.
    cbn [Pipeline.applies rateLimiter Pipeline.run_stage].
    unfold Pipeline.rate_limit.
    destruct (_ <? _)%nat; [done|]. by rewrite handle_hits. }
  destruct (JS.strict_eq (e !! "NODE_ENV") "production"); cbn [orb app].
  - by rewrite Hlim.
  - rewrite handle_cons. cbn [Pipeline.applies Pipeline.run_stage].
    destruct (swagger_docs lib r).
    + by rewrite Hlim.
    + done.
    + by rewrite handle_error_hits.
Qed.

Lemma hits_of_insert (h : gmap string nat) ip n k :
  Pipeline.hits_of (<[ip := n]> h) k
  = if String.eqb ip k then n else Pipeline.hits_of h k.
Proof.
  unfold Pipeline.hits_of. destruct (String.eqb_spec ip k) as [->|Hne].
  - by rewrite lookup_insert_eq.
  - by rewrite lookup_insert_ne.
Qed.

(** Within a window, that is over requests only, the counter of [ip] grows
    by the number of its requests that reached the limiter; the socket goes
    on listening. *)
Lemma run_requests lib e ip rs :
  forall w,
    Sane e w -> srv_state_of w = Some Listening ->
    srv_state_of (run lib w (map EvRequest rs)) = Some Listening
    /\ Pipeline.hits_of (limiter_hits (run lib w (map EvRequest rs))) ip
       = (Pipeline.hits_of (limiter_hits w) ip + counted lib e ip rs)%nat.
Proof.
  induction rs as [|q rs IH]; intros w Hw Hst.
  - cbn. split; [done|]. unfold counted. cbn. lia.
  - cbn [map run foldl].
    pose proof (step_sane lib e w (EvRequest q) Hw) as Hw'.
    assert (srv_state_of (step lib w (EvRequest q)) = Some Listening) as Hst'.
    { apply srv_state_of_Some in Hst as (s & Hsrv & Hst).
      rewrite (step_srv_state lib e w s _ Hw Hsrv). by rewrite Hst. }
    destruct (IH _ Hw' Hst') as [Hfin Hhits]. unfold run in *.
    split; [done|]. rewrite Hhits.
    rewrite (step_request lib e w q Hw Hst).
    rewrite (hits_serve_request lib e w q (sane_stack e w Hw)).
    unfold counted. cbn [List.filter].
    destruct (docs_pass lib e q); rewrite ?hits_of_insert;
      destruct (String.eqb (req_ip q) ip) eqn:Heq; cbn [andb length]; try lia.
    apply String.eqb_eq in Heq as ->. lia.
Qed.




(** C10, counterexample.  Outside production the documentation stages are
    registered ahead of the limiter: the sixth request for the API document
    within one window is served, and the limiter never sees it. *)
Lemma sixth_docs_request_is_served :
  ~ sixth_is_rejected sample_lib
      (started sample_lib ∅ None [EvListening 5000])
      (get "/api-docs.json" "10.0.0.1").
Proof.
  unfold sixth_is_rejected. vm_compute. intros H. discriminate H.
Qed.

(** C10, as amended.  [startServer] registers the limiter ahead of every
    other stage it registers itself, the liveness probe included; only the
    documentation stages, outside production, come before it.  Within one
    window, a request that those stages pass on and whose identity has
    already had five requests reach the limiter is answered with the
    rejection, and no stage after the limiter runs. *)
Theorem limiter_rejects_the_sixth lib e port evs rs r :
  let w := started lib e port evs in
  srv_state_of w = Some Listening ->
  docs_pass lib e r = true ->
  (5 <= counted lib e (req_ip r) rs)%nat ->
  app_stack (run lib w (map EvRequest rs))
  = docs_stage e ++ rateLimiter :: after_limiter e
  /\ served (step lib (run lib w (map EvRequest rs)) (EvRequest r))
     = served (run lib w (map EvRequest rs)) ++ [limited_exchange e r].
Proof.
  intros w Hst Hdocs Hcount.
  pose proof (started_sane lib e port evs) as Hw. fold w in Hw.
  pose proof (run_sane lib e w (map EvRequest rs) Hw) as Hw'.
  destruct (run_requests lib e (req_ip r) rs w Hw Hst) as [Hst' Hhits].
  split; [by rewrite (sane_stack e _ Hw')|].
  rewrite (step_request lib e _ r Hw' Hst'), served_serve_request.
  rewrite (answer_limited lib e _ r (sane_stack e _ Hw') Hdocs); [done|].
  rewrite Hhits. lia.
Qed.

(** Outside production: after five [GET /alive] of one identity, its sixth
    is rejected. *)
Lemma limiter_rejects_the_sixth_witness :
  served
    (step sample_lib
       (run sample_lib (started sample_lib ∅ None [EvListening 5000])
          (map EvRequest (replicate 5 (get "/alive" "10.0.0.1"))))
       (EvRequest (get "/alive" "10.0.0.1")))
  = served
      (run sample_lib (started sample_lib ∅ None [EvListening 5000])
         (map EvRequest (replicate 5 (get "/alive" "10.0.0.1"))))
    ++ [limited_exchange ∅ (get "/alive" "10.0.0.1")].
Proof.
  refine (proj2
            (limiter_rejects_the_sixth sample_lib ∅ None [EvListening 5000%Z]
               (replicate 5 (get "/alive" "10.0.0.1"))
               (get "/alive" "10.0.0.1") _ _ _)).
  - vm_compute. reflexivity.
  - vm_compute. reflexivity.
  - vm_compute. lia.
Defined.

(** *** Events one by one *)

Lemma strict_eq_true v s : JS.strict_eq v s = true <-> v = Some s.
Proof.
  unfold JS.strict_eq. destruct v as [t|]; [|done].
  rewrite String.eqb_eq. split; congruence.
Qed.

Lemma uncaught_value e w text stack origin :
  Sane e w ->
  uncaught (JS.Value text stack) origin w
  = add_log
      [LogError ("Uncaught Exception: origin:" ++ origin ++ ", error: "
                 ++ text ++ ", trace: " ++ JS.interpolate stack);
       LogWarn "Server may be unstable after an uncaught exception. Please restart server"]
      w.
Proof. intros Hw. unfold uncaught. by rewrite (sane_process e w Hw). Qed.

Lemma uncaught_throws e w v origin :
  Sane e w -> on_uncaughtException v origin w = None ->
  uncaught v origin w = set_exit_code (Some 7%Z) w.
Proof.
  intros Hw Hthrow. unfold uncaught. rewrite (sane_process e w Hw).
  cbn [listeners_for List.filter map fst snd String.eqb Ascii.eqb Bool.eqb
       run_process_listeners run_process_listener].
  by rewrite Hthrow.
Qed.

Lemma step_uncaught lib e w err origin :
  Sane e w ->
  step lib w (EvUncaught err origin) = add_log (uncaught_report err origin) w.
Proof.
  intros Hw. unfold step. rewrite (sane_exit e w Hw).
  unfold JS.thrown_of_error, uncaught_report.
  by rewrite (uncaught_value e w (JS.err_text err) (Some (JS.err_stack err))
                origin Hw).
Qed.


Lemma step_db_open lib e w :
  Sane e w -> step lib w EvDbOpen = on_db_open (set_db_state DbOpen w).
Proof.
  intros Hw. unfold step. rewrite (sane_exit e w Hw). cbn.
  by rewrite (sane_db_on e w Hw).
Qed.

Lemma step_fetch_done lib e w i err :
  Sane e w ->
  step lib w (EvFetchDone i err)
  = match fetches w !! i with
    | Some _ => on_fetch_done err w
    | None => w
    end.
Proof. intros Hw. unfold step. by rewrite (sane_exit e w Hw). Qed.

Lemma set_log_same w : set_log (log w) w = w.
Proof. by destruct w. Qed.

(** Loading the module registers one ["uncaughtException"] listener and
    [startServer] and the run time add none.  Given an [Error] object it
    writes one error entry naming the origin, the error and its stack
    trace, then one warning that the server may be unstable and should be
    restarted; nothing else changes, and the process does not end. *)
Lemma uncaught_error_is_logged lib e port evs err origin :
  let w := started lib e port evs in
  listeners_for "uncaughtException" (process_on (module_load e))
  = [OnUncaughtException]
  /\ listeners_for "uncaughtException" (process_on w) = [OnUncaughtException]
  /\ log (step lib w (EvUncaught err origin))
     = log w
       ++ [LogError ("Uncaught Exception: origin:" ++ origin ++ ", error: "
                     ++ JS.err_text err ++ ", trace: " ++ JS.err_stack err);
           LogWarn "Server may be unstable after an uncaught exception. Please restart server"]
  /\ exit_code (step lib w (EvUncaught err origin)) = None
  /\ set_log (log w) (step lib w (EvUncaught err origin)) = w.
Proof.
  intros w. pose proof (started_sane lib e port evs) as Hw. fold w in Hw.
  rewrite (step_uncaught lib e w err origin Hw).
  split; [done|]. split; [by rewrite (sane_process e w Hw)|].
  split; [done|]. split; [exact (sane_exit e w Hw)|].
  by destruct w.
Qed.

(** A thrown string has no [stack]: the entry says so and the process
    lives on. *)
Lemma uncaught_string_is_logged lib e port evs text origin :
  let w := started lib e port evs in
  log (uncaught (JS.Value text None) origin w)
  = log w
    ++ [LogError ("Uncaught Exception: origin:" ++ origin ++ ", error: "
                  ++ text ++ ", trace: undefined");
        LogWarn "Server may be unstable after an uncaught exception. Please restart server"]
  /\ exit_code (uncaught (JS.Value text None) origin w) = None.
Proof.
  intros w. pose proof (started_sane lib e port evs) as Hw. fold w in Hw.
  rewrite (uncaught_value e w _ _ _ Hw). split; [done|].
  exact (sane_exit e w Hw).
Qed.

(** C9, at the failing input.  In every world the service can reach there
    is one ["uncaughtException"] listener.  When the value that was thrown
    is [null] or [undefined], the listener throws while it builds its
    message, reading [err.stack]: nothing is logged, neither the error nor
    the warning, and the process ends with code 7, without the ["exit"]
    listener being run; every other field of the world is as it was. *)
Theorem uncaught_nullish_ends_the_process lib e port evs origin :
  let w := started lib e port evs in
  listeners_for "uncaughtException" (process_on w) = [OnUncaughtException]
  /\ exit_code w = None
  /\ on_uncaughtException JS.Nullish origin w = None
  /\ log (uncaught JS.Nullish origin w) = log w
  /\ exit_code (uncaught JS.Nullish origin w) = Some 7%Z
  /\ set_exit_code None (uncaught JS.Nullish origin w) = w.
Proof.
  intros w. pose proof (started_sane lib e port evs) as Hw. fold w in Hw.
  rewrite (uncaught_throws e w JS.Nullish origin Hw eq_refl).
  split; [by rewrite (sane_process e w Hw)|].
  split; [exact (sane_exit e w Hw)|].
  split; [done|]. split; [done|]. split; [done|].
  pose proof (sane_exit e w Hw) as Hx. destruct w. cbn in Hx. by subst.
Qed.

(** C4.  When the storage connection opens and [CACHE_ON_STARTUP] is
    ["true"], two [PATCH] requests are issued, the first for the feature
    cache and the second for the heat-map cache; with any other value, or
    none, no outbound request is ever issued.  Opening touches neither the
    socket nor the start promise nor the life of the process.  When a
    warm-up call returns with an error, the error is written to the
    console, as [console.log] prints it, and nothing else changes: the call
    is not repeated, the socket, the start promise and the process are as
    they were.  When it returns without one, nothing changes at all. *)
Theorem warmup_on_open lib e port evs :
  let w := started lib e port evs in
  (e !! "CACHE_ON_STARTUP" = Some "true" ->
   fetches (step lib w EvDbOpen)
   = fetches w
     ++ [{| f_url := "http://localhost:" ++ JS.interpolate (e !! "PORT")
                     ++ JS.interpolate (e !! "API_PREFIX")
                     ++ "wifis/patch/reloadFeatureCache";
            f_method := PATCH |};
         {| f_url := "http://localhost:" ++ JS.interpolate (e !! "PORT")
                     ++ JS.interpolate (e !! "API_PREFIX")
                     ++ "wifis/patch/reloadHeatmapData";
            f_method := PATCH |}])
  /\ (e !! "CACHE_ON_STARTUP" <> Some "true" ->
      fetches w = [] /\ fetches (step lib w EvDbOpen) = [])
  /\ (db_state (step lib w EvDbOpen) = DbOpen
      /\ server (step lib w EvDbOpen) = server w
      /\ start_promise (step lib w EvDbOpen) = start_promise w
      /\ exit_code (step lib w EvDbOpen) = None)
  /\ (forall i x,
         (i < length (fetches w))%nat ->
         log (step lib w (EvFetchDone i (Some x)))
         = log w ++ [ConsoleLog (JS.err_inspect x)]
         /\ set_log (log w) (step lib w (EvFetchDone i (Some x))) = w)
  /\ (forall i, step lib w (EvFetchDone i None) = w)
  /\ (forall i err,
         (length (fetches w) <= i)%nat -> step lib w (EvFetchDone i err) = w).
Proof.
  intros w. pose proof (started_sane lib e port evs) as Hw. fold w in Hw.
  rewrite (step_db_open lib e w Hw). unfold on_db_open.
  cbn [env set_db_state add_log set_log].
  rewrite (sane_env e w Hw).
  split; [|split; [|split; [|split; [|split]]]].
  - intros Hflag. apply strict_eq_true in Hflag. rewrite Hflag.
    cbn [fetch set_fetches fetches env add_log set_log set_db_state].
    rewrite (sane_env e w Hw), <- app_assoc. reflexivity.
  - intros Hflag.
    destruct (JS.strict_eq (e !! "CACHE_ON_STARTUP") "true") eqn:Hs.
    + by apply strict_eq_true in Hs.
    + cbn. by rewrite (sane_fetches e w Hw Hs).
  - destruct (JS.strict_eq (e !! "CACHE_ON_STARTUP") "true"); cbn;
      by rewrite (sane_exit e w Hw).
  - intros i x Hi. rewrite (step_fetch_done lib e w i _ Hw).
    apply lookup_lt_is_Some_2 in Hi as [f ->]. cbn [on_fetch_done].
    split; [done|]. by destruct w.
  - intros i. rewrite (step_fetch_done lib e w i _ Hw).
    by destruct (fetches w !! i).
  - intros i err Hi. rewrite (step_fetch_done lib e w i _ Hw).
    by rewrite (lookup_ge_None_2 _ _ Hi).
Qed.

(** With the flag set, opening issues the two calls; without it, none; a
    call that fails leaves one line on the console. *)
Lemma warmup_on_open_witness :
  fetches
    (step sample_lib
       (started sample_lib {[ "CACHE_ON_STARTUP" := "true" ]} None [])
       EvDbOpen)
  = fetches (started sample_lib {[ "CACHE_ON_STARTUP" := "true" ]} None [])
    ++ [{| f_url := "http://localhost:"
                    ++ JS.interpolate
                         (({[ "CACHE_ON_STARTUP" := "true" ]} : Env) !! "PORT")
                    ++ JS.interpolate
                         (({[ "CACHE_ON_STARTUP" := "true" ]} : Env)
                            !! "API_PREFIX")
                    ++ "wifis/patch/reloadFeatureCache";
           f_method := PATCH |};
        {| f_url := "http://localhost:"
                    ++ JS.interpolate
                         (({[ "CACHE_ON_STARTUP" := "true" ]} : Env) !! "PORT")
                    ++ JS.interpolate
                         (({[ "CACHE_ON_STARTUP" := "true" ]} : Env)
                            !! "API_PREFIX")
                    ++ "wifis/patch/reloadHeatmapData";
           f_method := PATCH |}]
  /\ fetches (started sample_lib ∅ None [EvDbOpen]) = []
  /\ log
       (step sample_lib
          (started sample_lib {[ "CACHE_ON_STARTUP" := "true" ]} None [EvDbOpen])
          (EvFetchDone 1 (Some sample_error)))
     = log (started sample_lib {[ "CACHE_ON_STARTUP" := "true" ]} None [EvDbOpen])
       ++ [ConsoleLog (JS.err_inspect sample_error)].
Proof.
  split; [|split].
  - refine (proj1 (warmup_on_open sample_lib
                     {[ "CACHE_ON_STARTUP" := "true" ]} None []) _).
    vm_compute. reflexivity.
  - refine (proj1 (proj1 (proj2 (warmup_on_open sample_lib ∅ None [EvDbOpen])) _)).
    vm_compute. discriminate.
  - refine (proj1 (proj1 (proj2 (proj2 (proj2
              (warmup_on_open sample_lib {[ "CACHE_ON_STARTUP" := "true" ]}
                 None [EvDbOpen]))))
              1%nat sample_error _)).
    vm_compute. lia.
Defined.

(** C5, at the failing input.  With [CACHE_ON_STARTUP] set and neither
    [PORT] nor [API_PREFIX], the server listens on port 5000 under
    [/api/v1/], but the two warm-up calls are addressed to
    [localhost:undefined] with the prefix [undefined]. *)
Lemma warmup_url_ignores_the_defaults :
  fetches (started sample_lib {[ "CACHE_ON_STARTUP" := "true" ]} None [EvDbOpen])
  = [{| f_url := "http://localhost:undefinedundefinedwifis/patch/reloadFeatureCache";
        f_method := PATCH |};
     {| f_url := "http://localhost:undefinedundefinedwifis/patch/reloadHeatmapData";
        f_method := PATCH |}]
  /\ srv_port <$> server (started sample_lib {[ "CACHE_ON_STARTUP" := "true" ]}
                            None [EvDbOpen])
     = Some (PortNum 5000)
  /\ expected_warmup_url None {[ "CACHE_ON_STARTUP" := "true" ]} "reloadFeatureCache"
     = "http://localhost:5000/api/v1/wifis/patch/reloadFeatureCache"
  /\ expected_warmup_url None {[ "CACHE_ON_STARTUP" := "true" ]} "reloadHeatmapData"
     = "http://localhost:5000/api/v1/wifis/patch/reloadHeatmapData".
Proof. vm_compute. repeat split. Qed.

(** The address the code builds is the one the specification describes
    when [PORT] and [API_PREFIX] are both set and no port is passed. *)
Lemma warmup_url_agrees_when_set e p a endpoint :
  e !! "PORT" = Some p -> p <> "" ->
  e !! "API_PREFIX" = Some a -> a <> "" ->
  warmup_url e endpoint = expected_warmup_url None e endpoint.
Proof.
  intros Hp Hpne Ha Hane.
  unfold warmup_url, expected_warmup_url, resolve_port. rewrite Hp, Ha. cbn.
  destruct (String.eqb_spec p ""); [done|].
  by destruct (String.eqb_spec a "").
Qed.

Lemma step_hits lib e w ev :
  Sane e w ->
  limiter_hits (step lib w ev)
  = match ev with
    | EvWindowReset => ∅
    | EvRequest r =>
        match srv_state_of w with
        | Some Listening => limiter_hits (serve_request lib r w)
        | _ => limiter_hits w
        end
    | _ => limiter_hits w
    end.
Proof.
  intros [He Hp Hd Hx Hs Hf (s & Hsrv & Hn & Hsh)].
  unfold step. rewrite Hx.
  destruct ev; cbn.
  - rewrite Hd. cbn. unfold on_db_open. cbn. rewrite He.
    by destruct (JS.strict_eq _ _).
  - unfold uncaught. cbn. by rewrite Hp.
  - unfold srv_state_of. rewrite Hsrv. cbn.
    destruct (srv_state s); try done.
    unfold on_listening. by rewrite Hsrv.
  - rewrite Hsrv. destruct (srv_state s); try done.
    unfold uncaught. cbn. by rewrite Hp.
  - unfold srv_state_of. rewrite Hsrv. cbn. by destruct (srv_state s).
  - done.
  - by destruct (fetches w !! i); [destruct err|].
  - rewrite Hsrv. by destruct (srv_state s).
  - rewrite Hsrv. unfold emit_close_if_drained. cbn.
    destruct (srv_state s); try done; by destruct (pred (srv_conns s)).
  - destruct (start_promise w) as [[|[]|]|]; try done.
    unfold server_close. rewrite Hsrv. unfold emit_close_if_drained, originalClose. cbn.
    destruct (srv_state s); cbn; try done; by destruct (srv_conns s).
  - unfold uncaught. by rewrite Hp.
Qed.

(** No request is counted before the socket is bound. *)
Lemma run_unbound_hits lib e evs :
  forall w,
    Sane e w ->
    (forall st, srv_state_of w = Some st -> has_bound st = false ->
                limiter_hits w = ∅) ->
    forall st, srv_state_of (run lib w evs) = Some st -> has_bound st = false ->
               limiter_hits (run lib w evs) = ∅.
Proof.
  induction evs as [|ev evs IH]; intros w Hw Hempty; [done|].
  cbn [run foldl]. apply IH; [by apply step_sane|].
  intros st' Hst' Hb'.
  destruct (sane_server e w Hw) as (s & Hsrv & _).
  rewrite (step_srv_state lib e w s ev Hw Hsrv) in Hst'.
  injection Hst' as <-.
  assert (has_bound (srv_state s) = false) as Hb.
  { destruct (srv_state s), ev; try done; cbn in Hb';
      by destruct (_ =? _)%nat || by destruct (_ <=? _)%nat. }
  assert (srv_state_of w = Some (srv_state s)) as Hst
      by (unfold srv_state_of; by rewrite Hsrv).
  rewrite (step_hits lib e w ev Hw), Hst.
  destruct ev; try (by eapply Hempty); try done.
  destruct (srv_state s); try done; by eapply Hempty.
Qed.

Lemma started_unbound_hits lib e port evs st :
  srv_state_of (started lib e port evs) = Some st -> has_bound st = false ->
  limiter_hits (started lib e port evs) = ∅.
Proof.
  apply run_unbound_hits with (e := e); [apply startServer_sane|].
  intros _ _ _. unfold startServer, app_listen. cbn [module_load env].
  destruct (JS.strict_eq (e !! "NODE_ENV") "production");
    by destruct (listen_target lib (resolve_port port e)).
Qed.






(** *** Errors in the pipeline *)

Lemma pipeline_reporter_last e :
  pipeline e = before_reporter e ++ [GenericErrorMiddleware].
Proof. unfold pipeline, before_reporter. by rewrite <- app_assoc. Qed.

Lemma before_reporter_no_handler e :
  Forall (fun s => is_error_handler s = false) (before_reporter e).
Proof.
  unfold before_reporter, docs_stage.
  destruct (JS.strict_eq _ _); repeat constructor.
Qed.

Lemma run_stage_trace lib s r cx :
  Pipeline.cx_trace (snd (Pipeline.run_stage lib s r cx)) = Pipeline.cx_trace cx.
Proof.
  destruct s; cbn; try done.
  - unfold Pipeline.rate_limit. by destruct (_ <? _)%nat.
  - by destruct (decide _).
Qed.

(** An error meets the reporter after skipping every other stage; the
    reporter answers and runs once. *)
Lemma handle_error_reported lib before err cx :
  Forall (fun s => is_error_handler s = false) before ->
  Pipeline.handle_error lib (before ++ [GenericErrorMiddleware]) err cx
  = (error_response lib err, Pipeline.visit GenericErrorMiddleware cx).
Proof.
  induction 1 as [|s before Hs _ IH]; [done|].
  cbn. by rewrite Hs.
Qed.

Lemma handle_reported lib before r :
  Forall (fun s => is_error_handler s = false) before ->
  forall cx,
    exists tr,
      Forall (fun s => is_error_handler s = false) tr
      /\ match propagated lib (before ++ [GenericErrorMiddleware]) r cx with
         | Some err =>
             fst (Pipeline.handle lib (before ++ [GenericErrorMiddleware]) r cx)
             = error_response lib err
             /\ Pipeline.cx_trace
                  (snd (Pipeline.handle lib
                          (before ++ [GenericErrorMiddleware]) r cx))
                = Pipeline.cx_trace cx ++ tr ++ [GenericErrorMiddleware]
         | None =>
             Pipeline.cx_trace
               (snd (Pipeline.handle lib (before ++ [GenericErrorMiddleware]) r cx))
             = Pipeline.cx_trace cx ++ tr
         end.
Proof.
  induction 1 as [|s before Hs Hbefore IH]; intros cx.
  - exists []. split; [done|]. cbn. by rewrite app_nil_r.
  - cbn [app propagated]. rewrite handle_cons.
    destruct (Pipeline.applies lib s r); [|apply IH].
    pose proof (run_stage_trace lib s r (Pipeline.visit s cx)) as Htr.
    destruct (Pipeline.run_stage lib s r (Pipeline.visit s cx)) as [[|res|err] cx'];
      cbn in Htr.
    + destruct (IH cx') as (tr & Hno & Hres). exists (s :: tr).
      split; [by constructor|].
      destruct (propagated lib (before ++ [GenericErrorMiddleware]) r cx').
      * destruct Hres as [Hfst Htrace]. split; [done|].
        rewrite Htrace, Htr. cbn. by rewrite <- !app_assoc.
      * rewrite Hres, Htr. cbn. by rewrite <- !app_assoc.
    + exists [s]. split; [by repeat constructor|]. by cbn.
    + exists [s]. split; [by repeat constructor|].
      rewrite (handle_error_reported lib before err cx' Hbefore). cbn.
      rewrite Htr. split; [done|]. cbn. by rewrite <- !app_assoc.
Qed.

Lemma answer_fields lib w r :
  res_status (ex_res (answer lib w r))
  = res_status (fst (Pipeline.handle lib (app_stack w) r (entry w)))
  /\ res_body (ex_res (answer lib w r))
     = res_body (fst (Pipeline.handle lib (app_stack w) r (entry w)))
  /\ ex_trace (answer lib w r)
     = Pipeline.cx_trace (snd (Pipeline.handle lib (app_stack w) r (entry w)))
  /\ res_compressed (ex_res (answer lib w r))
     = Pipeline.cx_compress (snd (Pipeline.handle lib (app_stack w) r (entry w)))
       && (Pipeline.filter lib r (fst (Pipeline.handle lib (app_stack w) r (entry w)))
           && compression_applies lib r
                (fst (Pipeline.handle lib (app_stack w) r (entry w)))).
Proof.
  unfold answer, Pipeline.serve, Pipeline.finish.
  by destruct (Pipeline.handle _ _ _ _).
Qed.

(** C6.  In the pipeline [startServer] assembles, the error reporter is the
    last stage and the only error handler: the liveness probe, the route
    mount, the catch-all and every other stage come before it, and no event
    registers anything after it.  When a stage hands an error on, the
    answer has the status and body the reporter gives for that error, and
    the reporter is the last stage to run and runs once; when no stage
    fails the reporter does not run. *)
Theorem error_reporter_is_terminal lib e port evs r :
  let w := started lib e port evs in
  app_stack w = before_reporter e ++ [GenericErrorMiddleware]
  /\ Forall (fun s => is_error_handler s = false) (before_reporter e)
  /\ AliveRoute ∈ before_reporter e
  /\ Routes (JS.or_else (e !! "API_PREFIX") "/api/v1/") ∈ before_reporter e
  /\ CatchAll ∈ before_reporter e
  /\ exists tr,
      Forall (fun s => is_error_handler s = false) tr
      /\ match propagated lib (app_stack w) r (entry w) with
         | Some err =>
             res_status (ex_res (answer lib w r))
             = res_status (error_response lib err)
             /\ res_body (ex_res (answer lib w r))
                = res_body (error_response lib err)
             /\ ex_trace (answer lib w r) = tr ++ [GenericErrorMiddleware]
         | None => ex_trace (answer lib w r) = tr
         end.
Proof.
  intros w. pose proof (started_sane lib e port evs) as Hw. fold w in Hw.
  pose proof (sane_stack e w Hw) as Hstack. rewrite pipeline_reporter_last in Hstack.
  split; [done|]. split; [apply before_reporter_no_handler|].
  split; [|split; [|split]].
  - unfold before_reporter. apply elem_of_app. right.
    rewrite !elem_of_cons. tauto.
  - unfold before_reporter. apply elem_of_app. right.
    rewrite !elem_of_cons. tauto.
  - unfold before_reporter. apply elem_of_app. right.
    rewrite !elem_of_cons. tauto.
  - destruct (answer_fields lib w r) as (Hstatus & Hbody & Htrace & _).
    rewrite Hstatus, Hbody, Htrace, Hstack.
    destruct (handle_reported lib (before_reporter e) r
                (before_reporter_no_handler e) (entry w)) as (tr & Hno & Hres).
    exists tr. split; [done|].
    destruct (propagated lib (before_reporter e ++ [GenericErrorMiddleware]) r
                (entry w)).
    + destruct Hres as [-> ->]. done.
    + by rewrite Hres.
Qed.

(** A route handler that throws: the reporter's answer goes out. *)
Lemma error_reporter_example :
  propagated sample_lib
    (app_stack (started sample_lib production None [EvListening 5000]))
    (get "/api/v1/fail" "10.0.0.1")
    (entry (started sample_lib production None [EvListening 5000]))
  = Some sample_error
  /\ res_body
       (ex_res (answer sample_lib
                  (started sample_lib production None [EvListening 5000])
                  (get "/api/v1/fail" "10.0.0.1")))
     = "Error: boom".
Proof. vm_compute. split; reflexivity. Qed.

(** *** Compression *)

(** C7, counterexample.  A request whose [x-no-compression] header is
    present but empty is handed to the library's own predicate, and its
    response goes out compressed. *)
Lemma empty_opt_out_header_is_compressed :
  ~ opt_out_never_compressed
      (started sample_lib production None
         ([EvListening 5000]
          ++ [EvRequest (with_header "x-no-compression" ""
                           (get "/api/v1/big" "10.0.0.1"))])).
Proof.
  intros Hall. rewrite started_snoc in Hall.
  rewrite (step_request sample_lib production) in Hall;
    [|apply started_sane|by vm_compute].
  specialize (Hall (answer sample_lib
                      (started sample_lib production None [EvListening 5000%Z])
                      (with_header "x-no-compression" ""
                         (get "/api/v1/big" "10.0.0.1")))).
  rewrite served_serve_request in Hall.
  assert (true = false) as Habsurd; [|discriminate Habsurd].
  etransitivity; [|apply Hall].
  - vm_compute. reflexivity.
  - apply elem_of_app. right. by apply list_elem_of_singleton.
  - exists "". vm_compute. reflexivity.
Qed.

(** C7, as amended.  For every request whose [x-no-compression] header has
    a non-empty value the response is never compressed, whatever the
    library's own predicate would say: the [filter] option answers [false]
    from the header alone, for every such predicate. *)
Theorem opt_out_header_prevents_compression lib e port evs r :
  JS.truthy (req_headers r !! "x-no-compression") = true ->
  res_compressed (ex_res (answer lib (started lib e port evs) r)) = false
  /\ (forall lib' res, Pipeline.filter lib' r res = false).
Proof.
  intros Hheader.
  assert (forall lib' res, Pipeline.filter lib' r res = false) as Hfilter
      by (intros lib' res; unfold Pipeline.filter; by rewrite Hheader).
  split; [|done].
  destruct (answer_fields lib (started lib e port evs) r) as (_ & _ & _ & ->).
  rewrite Hfilter. cbn. apply andb_false_r.
Qed.

(** A large payload asked for with [x-no-compression: 1] goes out
    uncompressed. *)
Lemma opt_out_header_prevents_compression_witness :
  res_compressed
    (ex_res (answer sample_lib
               (started sample_lib production None [EvListening 5000])
               (with_header "x-no-compression" "1"
                  (get "/api/v1/big" "10.0.0.1"))))
  = false.
Proof.
  refine (proj1 (opt_out_header_prevents_compression sample_lib production None
                   [EvListening 5000%Z]
                   (with_header "x-no-compression" "1"
                      (get "/api/v1/big" "10.0.0.1")) _)).
  vm_compute. reflexivity.
Defined.

(** Without the header, or with an empty one, the library's predicate
    decides. *)
Lemma filter_defers lib r res :
  JS.truthy (req_headers r !! "x-no-compression") = false ->
  Pipeline.filter lib r res = compression_filter lib r res.
Proof. intros H. unfold Pipeline.filter. by rewrite H. Qed.

(** ** More of [start.js]: configuration, routing, counting *)

(** X1.  The port handed to [app.listen] is, in every reachable world, the
    explicit argument when there is one (whatever its value), else the
    [PORT] variable when it is set and not empty, else 5000. *)
Theorem listen_port_resolution lib e port evs :
  srv_port <$> server (started lib e port evs) = Some (resolve_port port e)
  /\ (forall p, port = Some p -> resolve_port port e = p)
  /\ (forall s, port = None -> e !! "PORT" = Some s -> s <> "" ->
                resolve_port port e = PortStr s)
  /\ (port = None -> e !! "PORT" = None \/ e !! "PORT" = Some "" ->
      resolve_port port e = PortNum 5000).
Proof.
  split; [apply started_frame|]. unfold resolve_port.
  split; [by intros p ->|]. split.
  - intros s -> -> Hne. by destruct (String.eqb_spec s "").
  - by intros -> [-> | ->].
Qed.

(** An explicit port 0 wins over [PORT]; an empty [PORT] gives 5000. *)
Lemma listen_port_resolution_witness :
  resolve_port (Some (PortNum 0)) {[ "PORT" := "8080" ]} = PortNum 0
  /\ resolve_port None {[ "PORT" := "8080" ]} = PortStr "8080"
  /\ resolve_port None {[ "PORT" := "" ]} = PortNum 5000.
Proof.
  split; [|split].
  - refine (proj1 (proj2 (listen_port_resolution sample_lib
                            {[ "PORT" := "8080" ]} (Some (PortNum 0)) []))
              (PortNum 0) _).
    reflexivity.
  - refine (proj1 (proj2 (proj2 (listen_port_resolution sample_lib
                                   {[ "PORT" := "8080" ]} None [])))
              "8080" _ _ _).
    + reflexivity.
    + vm_compute. reflexivity.
    + discriminate.
  - refine (proj2 (proj2 (proj2 (listen_port_resolution sample_lib
                                   {[ "PORT" := "" ]} None []))) _ _).
    + reflexivity.
    + right. vm_compute. reflexivity.
Defined.

(** X2.  [mongoose.connect] is given, once and for all, the Docker
    connection string when [DOCKER_ENV] is ["true"] and
    [DOCKER_DATABASE_URL] is set and not empty; otherwise [DATABASE_URL]
    when it is set and not empty; otherwise the built-in default. *)
Theorem database_url_selection lib e port evs :
  db_url (started lib e port evs) = Some (databaseURL e)
  /\ (forall u, e !! "DOCKER_ENV" = Some "true" ->
                e !! "DOCKER_DATABASE_URL" = Some u -> u <> "" ->
                databaseURL e = u)
  /\ (e !! "DOCKER_ENV" <> Some "true"
      \/ e !! "DOCKER_DATABASE_URL" = None
      \/ e !! "DOCKER_DATABASE_URL" = Some "" ->
      (forall d, e !! "DATABASE_URL" = Some d -> d <> "" -> databaseURL e = d)
      /\ (e !! "DATABASE_URL" = None \/ e !! "DATABASE_URL" = Some "" ->
          databaseURL e = "mongodb://mongo:27017/prj")).
Proof.
  split; [apply started_frame|]. unfold databaseURL. split.
  - intros u Hdocker -> Hne. apply strict_eq_true in Hdocker. rewrite Hdocker.
    cbn. by destruct (String.eqb_spec u "").
  - intros Hoff.
    assert (JS.strict_eq (e !! "DOCKER_ENV") "true"
            && JS.truthy (e !! "DOCKER_DATABASE_URL") = false) as ->.
    { destruct Hoff as [Hoff | [-> | ->]].
      - destruct (JS.strict_eq (e !! "DOCKER_ENV") "true") eqn:Hs; [|done].
        by apply strict_eq_true in Hs.
      - apply andb_false_r.
      - apply andb_false_r. }
    split.
    + intros d -> Hne. cbn. by destruct (String.eqb_spec d "").
    + by intros [-> | ->].
Qed.

(** [DOCKER_ENV] without a Docker connection string falls back. *)
Lemma database_url_selection_witness :
  databaseURL {[ "DOCKER_ENV" := "true"; "DOCKER_DATABASE_URL" := "mongodb://db/x";
                 "DATABASE_URL" := "mongodb://other/y" ]}
  = "mongodb://db/x"
  /\ databaseURL {[ "DOCKER_ENV" := "true"; "DATABASE_URL" := "mongodb://other/y" ]}
     = "mongodb://other/y".
Proof.
  split.
  - refine (proj1 (proj2 (database_url_selection sample_lib
                            {[ "DOCKER_ENV" := "true";
                               "DOCKER_DATABASE_URL" := "mongodb://db/x";
                               "DATABASE_URL" := "mongodb://other/y" ]} None []))
              "mongodb://db/x" _ _ _).
    + vm_compute. reflexivity.
    + vm_compute. reflexivity.
    + discriminate.
  - refine (proj1 (proj2 (proj2 (database_url_selection sample_lib
                                   {[ "DOCKER_ENV" := "true";
                                      "DATABASE_URL" := "mongodb://other/y" ]}
                                   None [])) _)
              "mongodb://other/y" _ _).
    + right. left. vm_compute. reflexivity.
    + vm_compute. reflexivity.
    + discriminate.
Defined.

(** X3.  The warm-up is tied to the ["open"] event with [on], not [once]:
    with [CACHE_ON_STARTUP] set to ["true"] every opening of the storage
    connection issues the two calls again, so after [k] openings [2k]
    requests have gone out, in pairs; nothing else ever issues one. *)
Theorem warmup_repeats_on_every_open lib e port evs :
  e !! "CACHE_ON_STARTUP" = Some "true" ->
  fetches (started lib e port evs)
  = concat (replicate (opens evs) (warmup_fetches e))
  /\ length (fetches (started lib e port evs)) = (2 * opens evs)%nat.
Proof.
  intros Hflag. apply strict_eq_true in Hflag.
  destruct (started_frame lib e port evs) as (_ & _ & ->).
  unfold fetches_of. rewrite Hflag. split; [done|].
  induction (opens evs) as [|k IH]; [done|].
  cbn [replicate concat]. rewrite length_app, IH. cbn. lia.
Qed.

Lemma warmup_repeats_on_every_open_witness :
  length
    (fetches (started sample_lib {[ "CACHE_ON_STARTUP" := "true" ]} None
                [EvDbOpen; EvListening 5000; EvDbOpen]))
  = (2 * opens [EvDbOpen; EvListening 5000; EvDbOpen])%nat.
Proof.
  refine (proj2 (warmup_repeats_on_every_open sample_lib
                   {[ "CACHE_ON_STARTUP" := "true" ]} None
                   [EvDbOpen; EvListening 5000%Z; EvDbOpen] _)).
  vm_compute. reflexivity.
Defined.

(** Nothing is answered before the socket is bound. *)
Lemma run_unbound_served lib e evs :
  forall w,
    Sane e w ->
    (forall st, srv_state_of w = Some st -> has_bound st = false ->
                served w = []) ->
    forall st, srv_state_of (run lib w evs) = Some st -> has_bound st = false ->
               served (run lib w evs) = [].
Proof.
  induction evs as [|ev evs IH]; intros w Hw Hempty; [done|].
  cbn [run foldl]. apply IH; [by apply step_sane|].
  intros st' Hst' Hb'.
  destruct (sane_server e w Hw) as (s & Hsrv & _).
  rewrite (step_srv_state lib e w s ev Hw Hsrv) in Hst'.
  injection Hst' as <-.
  assert (has_bound (srv_state s) = false) as Hb.
  { destruct (srv_state s), ev; try done; cbn in Hb';
      by destruct (_ =? _)%nat || by destruct (_ <=? _)%nat. }
  assert (srv_state_of w = Some (srv_state s)) as Hst
      by (unfold srv_state_of; by rewrite Hsrv).
  destruct (step_frame lib e w ev Hw) as (_ & _ & _ & ->).
  rewrite (Hempty _ Hst Hb). unfold served_of. rewrite Hst.
  destruct ev; try done. by destruct (srv_state s).
Qed.

Lemma started_unbound_served lib e port evs st :
  srv_state_of (started lib e port evs) = Some st -> has_bound st = false ->
  served (started lib e port evs) = [].
Proof.
  apply run_unbound_served with (e := e); [apply startServer_sane|].
  intros _ _ _. unfold startServer, app_listen. cbn [module_load env].
  destruct (JS.strict_eq (e !! "NODE_ENV") "production");
    by destruct (listen_target lib (resolve_port port e)).
Qed.

(** X4.  When the bind fails while the socket is starting, the error the
    socket emits is written to the log by the ["uncaughtException"]
    listener, with that origin, followed by the restart warning.  From then
    on, whatever the run time delivers, the socket stays failed, the start
    promise stays pending and no request is ever answered. *)
Theorem bind_failure_leaves_a_silent_process lib e port evs err :
  srv_state_of (started lib e port evs) = Some Starting ->
  log (started lib e port (evs ++ [EvBindFail err]))
  = log (started lib e port evs)
    ++ [LogError ("Uncaught Exception: origin:uncaughtException, error: "
                  ++ JS.err_text err ++ ", trace: " ++ JS.err_stack err);
        LogWarn "Server may be unstable after an uncaught exception. Please restart server"]
  /\ forall later,
      srv_state_of (started lib e port (evs ++ EvBindFail err :: later))
      = Some BindFailed
      /\ start_promise (started lib e port (evs ++ EvBindFail err :: later))
         = Some JS.Pending
      /\ served (started lib e port (evs ++ EvBindFail err :: later)) = [].
Proof.
  intros Hst. pose proof (started_sane lib e port evs) as Hw.
  split.
  - rewrite started_snoc.
    apply srv_state_of_Some in Hst as (s & Hsrv & Hst).
    unfold step. rewrite (sane_exit e _ Hw), Hsrv, Hst.
    unfold uncaught. cbn [process_on set_server].
    by rewrite (sane_process e _ Hw).
  - intros later.
    assert (srv_state_of (started lib e port (evs ++ EvBindFail err :: later))
            = Some BindFailed) as Hfailed.
    { unfold started. rewrite run_app. cbn [run foldl].
      apply (run_bind_failed lib e); [by apply step_sane|].
      apply srv_state_of_Some in Hst as (s & Hsrv & Hst).
      by rewrite (step_srv_state lib e _ s _ Hw Hsrv), Hst. }
    split; [done|]. split.
    + by apply (pending_of_unbound e _ BindFailed (started_sane lib e port _)).
    + by apply (started_unbound_served lib e port _ BindFailed).
Qed.

Lemma bind_failure_leaves_a_silent_process_witness :
  served
    (started sample_lib production None
       ([EvDbOpen] ++ EvBindFail sample_error
          :: [EvListening 5000; EvRequest (get "/alive" "10.0.0.1")]))
  = [].
Proof.
  refine (proj2 (proj2 (proj2 (bind_failure_leaves_a_silent_process sample_lib
                                 production None [EvDbOpen] sample_error _)
                          [EvListening 5000%Z;
                           EvRequest (get "/alive" "10.0.0.1")]))).
  vm_compute. reflexivity.
Defined.

(** X5.  The socket only ever moves forward: from starting to listening or
    to failed, from listening to closing or closed, from closing to closed.
    No event takes it back, and closed and failed are final. *)
Theorem handle_only_moves_forward lib e port evs ev :
  exists st st',
    srv_state_of (started lib e port evs) = Some st
    /\ srv_state_of (started lib e port (evs ++ [ev])) = Some st'
    /\ (st' = st \/ advances st st' = true)
    /\ (rank st <= rank st')%nat.
Proof.
  pose proof (started_sane lib e port evs) as Hw.
  destruct (sane_server e _ Hw) as (s & Hsrv & _).
  exists (srv_state s), (next_state (srv_state s) (srv_conns s) ev).
  split; [unfold srv_state_of; by rewrite Hsrv|].
  split; [rewrite started_snoc; apply (step_srv_state lib e _ s ev Hw Hsrv)|].
  destruct (srv_state s), ev; cbn;
    repeat match goal with
           | |- context [if ?b then _ else _] => destruct b
           end;
    cbn; split; (lia || tauto).
Qed.

(** *** Past the body parsers *)

Lemma pipeline_mount e :
  pipeline e
  = docs_stage e
    ++ [rateLimiter; Helmet; Cors; AliveRoute; ExpressLogger; Compression;
        JsonParser limit_100mb; UrlencodedParser limit_100mb;
        Routes (mount e); CatchAll; GenericErrorMiddleware].
Proof. reflexivity. Qed.

Lemma through_parsers_cases lib e r :
  through_parsers lib e r = true ->
  docs_pass lib e r = true
  /\ req_method r <> OPTIONS
  /\ Pipeline.applies lib AliveRoute r = false
  /\ Pipeline.body_parser JsonBody limit_100mb r = Next
  /\ Pipeline.body_parser UrlencodedBody limit_100mb r = Next.
Proof.
  unfold through_parsers. rewrite !andb_true_iff, !negb_true_iff.
  intros [[[Hdocs Hopt] Halive] Hbody].
  apply bool_decide_eq_false in Hopt.
  destruct (Pipeline.body_parser JsonBody limit_100mb r); try done.
  by destruct (Pipeline.body_parser UrlencodedBody limit_100mb r).
Qed.

(** The limiter lets a request through and counts it. *)
Lemma handle_limiter_admits lib rest r cx :
  (Pipeline.hits_of (Pipeline.cx_hits cx) (req_ip r) < 5)%nat ->
  Pipeline.handle lib (rateLimiter :: rest) r cx
  = Pipeline.handle lib rest r
      {| Pipeline.cx_hits :=
           <[req_ip r := S (Pipeline.hits_of (Pipeline.cx_hits cx) (req_ip r))]>
             (Pipeline.cx_hits cx);
         Pipeline.cx_db := Pipeline.cx_db cx;
         Pipeline.cx_log := Pipeline.cx_log cx;
         Pipeline.cx_compress := Pipeline.cx_compress cx;
         Pipeline.cx_trace := Pipeline.cx_trace cx ++ [rateLimiter] |}.
Proof.
  intros Hhits. rewrite handle_cons.
  cbn [Pipeline.applies rateLimiter Pipeline.run_stage].
  unfold Pipeline.rate_limit.
  destruct (_ <? _)%nat eqn:Hlt; [|reflexivity].
  apply Nat.ltb_lt in Hlt. cbn in Hlt. lia.
Qed.

(** The way from the entry to the route mount. *)
Lemma handle_to_router lib e w r :
  through_parsers lib e r = true ->
  (Pipeline.hits_of (limiter_hits w) (req_ip r) < 5)%nat ->
  Pipeline.handle lib (pipeline e) r (entry w)
  = Pipeline.handle lib [Routes (mount e); CatchAll; GenericErrorMiddleware] r
      {| Pipeline.cx_hits :=
           <[req_ip r := S (Pipeline.hits_of (limiter_hits w) (req_ip r))]>
             (limiter_hits w);
         Pipeline.cx_db := db_state w;
         Pipeline.cx_log := [LogInfo (access_line lib r)];
         Pipeline.cx_compress := true;
         Pipeline.cx_trace := parsers_trace e |}.
Proof.
  intros Hthrough Hhits.
  destruct (through_parsers_cases lib e r Hthrough)
    as (Hdocs & Hopt & Halive & Hjson & Hurl).
  rewrite pipeline_mount. unfold parsers_trace.
  assert (forall cx,
             Pipeline.cx_hits cx = limiter_hits w ->
             Pipeline.cx_log cx = [] -> Pipeline.cx_compress cx = false ->
             Pipeline.handle lib
               [rateLimiter; Helmet; Cors; AliveRoute; ExpressLogger; Compression;
                JsonParser limit_100mb; UrlencodedParser limit_100mb;
                Routes (mount e); CatchAll; GenericErrorMiddleware] r cx
             = Pipeline.handle lib
                 [Routes (mount e); CatchAll; GenericErrorMiddleware] r
                 {| Pipeline.cx_hits :=
                      <[req_ip r := S (Pipeline.hits_of (limiter_hits w) (req_ip r))]>
                        (limiter_hits w);
                    Pipeline.cx_db := Pipeline.cx_db cx;
                    Pipeline.cx_log := [LogInfo (access_line lib r)];
                    Pipeline.cx_compress := true;
                    Pipeline.cx_trace :=
                      Pipeline.cx_trace cx
                      ++ [rateLimiter; Helmet; Cors; ExpressLogger; Compression;
                          JsonParser limit_100mb; UrlencodedParser limit_100mb] |})
    as Hrest.
  { intros cx Hh Hl Hc.
    rewrite handle_limiter_admits by (by rewrite Hh).
    rewrite handle_cons. cbn [Pipeline.applies Pipeline.run_stage].
    rewrite handle_cons. cbn [Pipeline.applies Pipeline.run_stage].
    destruct (decide (req_method r = OPTIONS)) as [|_]; [done|].
    rewrite handle_cons, Halive.
    rewrite handle_cons. cbn [Pipeline.applies Pipeline.run_stage].
    rewrite handle_cons. cbn [Pipeline.applies Pipeline.run_stage].
    rewrite handle_cons. cbn [Pipeline.applies Pipeline.run_stage].
    rewrite Hjson.
    rewrite handle_cons. cbn [Pipeline.applies Pipeline.run_stage].
    rewrite Hurl.
    cbn [Pipeline.visit Pipeline.cx_hits Pipeline.cx_log Pipeline.cx_compress
         Pipeline.cx_trace].
    rewrite Hh, Hl. unfold Pipeline.visit. cbn. by rewrite <- !app_assoc. }
  destruct (docs_pass_cases lib e r Hdocs) as [-> | [-> Hnext]].
  - cbn [app]. by rewrite Hrest.
  - cbn [app]. rewrite handle_cons. cbn [Pipeline.applies Pipeline.run_stage].
    rewrite Hnext. by rewrite Hrest.
Qed.

Ltac exchange_done :=
  unfold Pipeline.visit, compressed_by;
  cbn [Pipeline.cx_compress Pipeline.cx_trace andb];
  by rewrite <- ?app_assoc.

Lemma answer_of_handle lib w r res cx :
  Pipeline.handle lib (app_stack w) r (entry w) = (res, cx) ->
  answer lib w r
  = {| ex_req := r;
       ex_res :=
         {| res_status := res_status res; res_body := res_body res;
            res_compressed :=
              Pipeline.cx_compress cx
              && (Pipeline.filter lib r res && compression_applies lib r res) |};
       ex_trace := Pipeline.cx_trace cx |}.
Proof.
  intros H. unfold answer, Pipeline.serve, Pipeline.finish. by rewrite H.
Qed.



(** X7.  Take a request that the documentation stages pass on, that the
    limiter admits, that is no CORS preflight, that the liveness probe does
    not match and whose body both parsers accept.  If its path is under
    the API prefix ([API_PREFIX], or [/api/v1/] when that is unset or
    empty) it is handed to the route table, together with the storage
    connection as it is; what the table answers goes out, compressed or
    not as the compression stage decides, and neither the catch-all nor
    the error reporter runs.  Under the default prefix are the path
    [/api/v1] and every path that begins with [/api/v1/], in any letter
    case. *)
Theorem route_table_answers_under_the_prefix lib e port evs r res :
  through_parsers lib e r = true ->
  (Pipeline.hits_of (limiter_hits (started lib e port evs)) (req_ip r) < 5)%nat ->
  Pipeline.under_prefix lib (mount e) (req_path r) = true ->
  getRoutes lib (db_state (started lib e port evs)) r = Respond res ->
  answer lib (started lib e port evs) r
  = {| ex_req := r; ex_res := compressed_by lib r res;
       ex_trace := parsers_trace e ++ [Routes (mount e)] |}
  /\ (e !! "API_PREFIX" = None \/ e !! "API_PREFIX" = Some "" ->
      mount e = "/api/v1/"
      /\ forall p,
          Pipeline.under_prefix lib (mount e) p
          = (String.eqb (JS.toLowerCase p) "/api/v1"
             || String.prefix "/api/v1/" (JS.toLowerCase p))).
Proof.
  intros Hthrough Hhits Hunder Hroute.
  pose proof (started_sane lib e port evs) as Hw. split.
  - pose proof (handle_to_router lib e _ r Hthrough Hhits) as Hhandle.
    rewrite <- (sane_stack e _ Hw) in Hhandle.
    rewrite handle_cons in Hhandle.
    cbn [Pipeline.applies Pipeline.run_stage Pipeline.visit Pipeline.cx_db]
      in Hhandle.
    rewrite Hunder, Hroute in Hhandle.
    rewrite (answer_of_handle _ _ _ _ _ Hhandle). exchange_done.
  - unfold mount. by intros [-> | ->].
Qed.

Lemma route_table_answers_under_the_prefix_witness :
  answer sample_lib (started sample_lib ∅ None [EvListening 5000])
    (get "/api/v1/big" "10.0.0.1")
  = {| ex_req := get "/api/v1/big" "10.0.0.1";
       ex_res := compressed_by sample_lib (get "/api/v1/big" "10.0.0.1")
                   (send 200 "a large payload");
       ex_trace := parsers_trace ∅ ++ [Routes (mount ∅)] |}.
Proof.
  refine (proj1 (route_table_answers_under_the_prefix sample_lib ∅ None
                   [EvListening 5000%Z] (get "/api/v1/big" "10.0.0.1")
                   (send 200 "a large payload") _ _ _ _)).
  - vm_compute. reflexivity.
  - vm_compute. lia.
  - vm_compute. reflexivity.
  - vm_compute. reflexivity.
Defined.

(** With the storage connection failed, a route that needs it fails, and
    the error reporter answers: the storage error is met by the request,
    not by the start of the service. *)
Lemma storage_error_is_deferred_to_the_request :
  ex_res
    (answer sample_lib
       (started sample_lib production None
          [EvDbConnectFail sample_error; EvListening 5000])
       (get "/api/v1/wifis" "10.0.0.1"))
  = compressed_by sample_lib (get "/api/v1/wifis" "10.0.0.1")
      (error_response sample_lib sample_error)
  /\ ex_res
       (answer sample_lib
          (started sample_lib production None [EvDbOpen; EvListening 5000])
          (get "/api/v1/wifis" "10.0.0.1"))
     = compressed_by sample_lib (get "/api/v1/wifis" "10.0.0.1")
         (send 200 "[]").
Proof. vm_compute. split; reflexivity. Qed.




(** *** The order of the stages *)

Lemma handle_error_trace lib stack err cx :
  exists tr,
    Pipeline.cx_trace (snd (Pipeline.handle_error lib stack err cx))
    = Pipeline.cx_trace cx ++ tr
    /\ tr `sublist_of` stack
    /\ Forall (fun s => is_error_handler s = true) tr.
Proof.
  revert cx. induction stack as [|s stack IH]; intros cx.
  - exists []. cbn. by rewrite app_nil_r.
  - cbn [Pipeline.handle_error]. destruct (is_error_handler s) eqn:Hs.
    + exists [s]. unfold Pipeline.genericErrorMiddleware.
      cbn [snd Pipeline.visit Pipeline.cx_trace].
      split; [done|]. split; [|by repeat constructor].
      constructor. apply sublist_nil_l.
    + destruct (IH cx) as (tr & Htr & Hsub & Hall). exists tr.
      split; [done|]. split; [by constructor|done].
Qed.

(** The stages that run for a request run in registration order, each at
    most once per registration, and each either matches the request or is
    an error handler. *)
Lemma handle_trace lib stack r cx :
  exists tr,
    Pipeline.cx_trace (snd (Pipeline.handle lib stack r cx))
    = Pipeline.cx_trace cx ++ tr
    /\ tr `sublist_of` stack
    /\ Forall (fun s => is_error_handler s = true
                        \/ Pipeline.applies lib s r = true) tr.
Proof.
  revert cx. induction stack as [|s stack IH]; intros cx.
  - exists []. cbn. by rewrite app_nil_r.
  - rewrite handle_cons. destruct (Pipeline.applies lib s r) eqn:Happ.
    + pose proof (run_stage_trace lib s r (Pipeline.visit s cx)) as Htr.
      destruct (Pipeline.run_stage lib s r (Pipeline.visit s cx))
        as [[|res|err] cx']; cbn in Htr.
      * destruct (IH cx') as (tr & Heq & Hsub & Hall). exists (s :: tr).
        rewrite Heq, Htr. split; [by rewrite <- app_assoc|].
        split; [by constructor|]. constructor; [by right|done].
      * exists [s]. cbn [snd]. rewrite Htr. split; [done|].
        split; [constructor; apply sublist_nil_l|].
        constructor; [by right|constructor].
      * destruct (handle_error_trace lib stack err cx')
          as (tr & Heq & Hsub & Hall). exists (s :: tr).
        rewrite Heq, Htr. split; [by rewrite <- app_assoc|].
        split; [by constructor|]. constructor; [by right|].
        eapply Forall_impl; [exact Hall|]. intros x Hx. by left.
    + destruct (IH cx) as (tr & Heq & Hsub & Hall). exists tr.
      split; [done|]. split; [by constructor|done].
Qed.

(** *** The limiter, identity by identity *)

Lemma admitted_trace lib e w r :
  app_stack w = pipeline e ->
  docs_pass lib e r = true ->
  (Pipeline.hits_of (limiter_hits w) (req_ip r) < 5)%nat ->
  exists tr,
    ex_trace (answer lib w r) = docs_stage e ++ [rateLimiter; Helmet] ++ tr.
Proof.
  intros Hstack Hdocs Hhits.
  destruct (answer_fields lib w r) as (_ & _ & -> & _).
  rewrite Hstack, pipeline_split. unfold after_limiter.
  assert (forall cx,
             Pipeline.cx_hits cx = limiter_hits w ->
             exists tr,
               Pipeline.cx_trace
                 (snd (Pipeline.handle lib
                         (rateLimiter
                            :: Helmet
                            :: [Cors; AliveRoute; ExpressLogger; Compression;
                                JsonParser limit_100mb;
                                UrlencodedParser limit_100mb;
                                Routes (JS.or_else (e !! "API_PREFIX") "/api/v1/");
                                CatchAll; GenericErrorMiddleware]) r cx))
               = Pipeline.cx_trace cx ++ [rateLimiter; Helmet] ++ tr) as Hrest.
  { intros cx Hh.
    rewrite handle_limiter_admits by (by rewrite Hh).
    rewrite handle_cons. cbn [Pipeline.applies Pipeline.run_stage].
    match goal with
    | |- context [Pipeline.handle lib ?st r ?c] =>
        destruct (handle_trace lib st r c) as (tr & -> & _)
    end.
    exists tr. unfold Pipeline.visit. cbn [Pipeline.cx_trace].
    by rewrite <- !app_assoc. }
  destruct (docs_pass_cases lib e r Hdocs) as [-> | [-> Hnext]]; cbn [app].
  - destruct (Hrest (entry w) eq_refl) as (tr & ->). by exists tr.
  - rewrite handle_cons. cbn [Pipeline.applies Pipeline.run_stage].
    rewrite Hnext.
    destruct (Hrest (Pipeline.visit SwaggerDocs (entry w)) eq_refl) as (tr & ->).
    by exists tr.
Qed.

(** X10.  The limiter keeps one counter per identity and starts afresh with
    every window.  After a window has begun, a request that the
    documentation stages pass on is rejected exactly when five earlier
    requests of its own identity have reached the limiter in that window:
    the traffic of other identities, and whatever happened in earlier
    windows, make no difference. *)
Theorem limiter_counts_each_identity_per_window lib e port evs rs r :
  srv_state_of (started lib e port evs) = Some Listening ->
  docs_pass lib e r = true ->
  Pipeline.hits_of
    (limiter_hits
       (run lib (started lib e port (evs ++ [EvWindowReset])) (map EvRequest rs)))
    (req_ip r)
  = counted lib e (req_ip r) rs
  /\ ((counted lib e (req_ip r) rs < 5)%nat ->
      exists tr,
        ex_trace
          (answer lib
             (run lib (started lib e port (evs ++ [EvWindowReset]))
                (map EvRequest rs)) r)
        = docs_stage e ++ [rateLimiter; Helmet] ++ tr)
  /\ ((5 <= counted lib e (req_ip r) rs)%nat ->
      answer lib
        (run lib (started lib e port (evs ++ [EvWindowReset]))
           (map EvRequest rs)) r
      = limited_exchange e r).
Proof.
  intros Hst Hdocs.
  pose proof (started_sane lib e port evs) as Hw0.
  pose proof (started_sane lib e port (evs ++ [EvWindowReset])) as Hw1.
  assert (srv_state_of (started lib e port (evs ++ [EvWindowReset]))
          = Some Listening) as Hst1.
  { rewrite started_snoc. apply srv_state_of_Some in Hst as (s & Hsrv & Hst).
    by rewrite (step_srv_state lib e _ s _ Hw0 Hsrv), Hst. }
  assert (limiter_hits (started lib e port (evs ++ [EvWindowReset])) = ∅)
    as Hreset by (by rewrite started_snoc, (step_hits lib e _ _ Hw0)).
  destruct (run_requests lib e (req_ip r) rs _ Hw1 Hst1) as [_ Hhits].
  rewrite Hreset in Hhits. unfold Pipeline.hits_of at 2 in Hhits.
  rewrite lookup_empty in Hhits. cbn in Hhits.
  pose proof (run_sane lib e _ (map EvRequest rs) Hw1) as Hw.
  split; [done|]. split.
  - intros Hfew.
    apply (admitted_trace lib e _ r (sane_stack e _ Hw) Hdocs). by rewrite Hhits.
  - intros Hmany.
    apply (answer_limited lib e _ r (sane_stack e _ Hw) Hdocs). by rewrite Hhits.
Qed.

Lemma limiter_counts_each_identity_per_window_witness :
  Pipeline.hits_of
    (limiter_hits
       (run sample_lib
          (started sample_lib production None
             ([EvListening 5000; EvRequest (get "/alive" "10.0.0.1")]
              ++ [EvWindowReset]))
          (map EvRequest
             [get "/alive" "10.0.0.1"; get "/alive" "10.0.0.2";
              get "/x" "10.0.0.1"])))
    (req_ip (get "/alive" "10.0.0.1"))
  = counted sample_lib production (req_ip (get "/alive" "10.0.0.1"))
      [get "/alive" "10.0.0.1"; get "/alive" "10.0.0.2"; get "/x" "10.0.0.1"].
Proof.
  refine (proj1 (limiter_counts_each_identity_per_window sample_lib production
                   None [EvListening 5000%Z; EvRequest (get "/alive" "10.0.0.1")]
                   [get "/alive" "10.0.0.1"; get "/alive" "10.0.0.2";
                    get "/x" "10.0.0.1"]
                   (get "/alive" "10.0.0.1") _ _)).
  - vm_compute. reflexivity.
  - vm_compute. reflexivity.
Defined.

(** *** Behind the catch-all and the error reporter *)







